(** * Leaderboard update engine: embedding and verification

    A shallow embedding of the Kafka consumer ([eachBatch] of the leaderboard
    updater), of the Redis service functions it calls
    ([getPlayerRank], [updateWeeklyLeaderboard], [getWeekIdentifier],
    [needsRebuild]) and of [resetConsumerOffsetToEarliest] from [util/db.js],
    followed by the properties the specification states about them.

    Conventions of the embedding.
    - JavaScript values that the code inspects dynamically (the fields of a
      decoded event) are values of [jsval].  Numbers are the integers; a
      fractional number is outside the embedding.
    - Redis is a record of finite maps.  Hash commands of the engine address
      only keys [player:...] and sorted-set commands only keys
      [leaderboard:...]; the two families are disjoint, so the store keeps
      one map per family.  A pipeline is the list of its queued commands and
      [exec] runs them in order, a failing command leaving the store as it is.
    - Awaited calls are sequenced in program order.  Connection failures of
      Redis and Kafka are modelled only where a claim is about them
      ([needsRebuild], [resetConsumerOffsetToEarliest]). *)

From stdpp Require Import base gmap list strings pretty.
From Stdlib Require Import ZArith String Ascii Lia.

Open Scope string_scope.
Open Scope list_scope.
Open Scope Z_scope.

(* ===================================================================== *)
(** ** JavaScript values *)
(* ===================================================================== *)

Inductive jsval :=
| JUndefined
| JNull
| JBool (b : bool)
| JNum (z : Z)
| JStr (s : string).

Global Instance jsval_eq_dec : EqDecision jsval.
Proof. solve_decision. Defined.

(** [!v] is [negb (truthy v)]. *)
Definition truthy (v : jsval) : bool :=
  match v with
  | JUndefined | JNull => false
  | JBool b => b
  | JNum z => negb (z =? 0)
  | JStr s => match s with EmptyString => false | _ => true end
  end.

(** Template-literal conversion [`${v}`]. *)
Definition toString (v : jsval) : string :=
  match v with
  | JUndefined => "undefined"
  | JNull => "null"
  | JBool true => "true"
  | JBool false => "false"
  | JNum z => pretty z
  | JStr s => s
  end.

(** Decimal integer literals: one or more digits, with an optional sign
    written by the caller. *)
Fixpoint digitsValue (s : string) (acc : Z) : option Z :=
  match s with
  | EmptyString => Some acc
  | String c s' =>
      match Ascii.is_nat c with
      | Some d => digitsValue s' (10 * acc + Z.of_nat d)
      | None => None
      end
  end.

Definition parseDecimal (s : string) : option Z :=
  match s with
  | EmptyString => None
  | String "-"%char s' =>
      match s' with
      | EmptyString => None
      | _ => Z.opp <$> digitsValue s' 0
      end
  | _ => digitsValue s 0
  end.

Fixpoint trimStart (s : string) : string :=
  match s with
  | String c s' => if Ascii.is_space c then trimStart s' else s
  | EmptyString => EmptyString
  end.

Definition trim (s : string) : string :=
  String.rev (trimStart (String.rev (trimStart s))).

(** [Number(v)]; [None] is NaN.  On strings the embedding knows the decimal
    integer literals (surrounding white space allowed, the empty string is 0);
    every other string is not a number here. *)
Definition Number (v : jsval) : option Z :=
  match v with
  | JUndefined => None
  | JNull => Some 0
  | JBool b => Some (if b then 1 else 0)
  | JNum z => Some z
  | JStr s =>
      match trim s with
      | EmptyString => Some 0
      | String "+"%char s' =>
          match s' with EmptyString => None | _ => digitsValue s' 0 end
      | t => parseDecimal t
      end
  end.

(** [s.includes(sub)]. *)
Definition includes (sub s : string) : bool :=
  match String.index 0 sub s with
  | Some _ => true
  | None => false
  end.

(** [s.split("T")[0]]: the text before the first [T]. *)
Fixpoint beforeT (s : string) : string :=
  match s with
  | EmptyString => EmptyString
  | String c s' => if Ascii.eqb c "T" then EmptyString else String c (beforeT s')
  end.

(* ===================================================================== *)
(** ** The Redis store and the commands the engine issues *)
(* ===================================================================== *)

(** A hash field holds a string; the strings that are canonical integers
    (what [HINCRBY] accepts and writes) are kept as [HInt]. *)
Inductive hval :=
| HInt (z : Z)
| HStr (s : string).

Global Instance hval_eq_dec : EqDecision hval.
Proof. solve_decision. Defined.

Record store := Store {
  hashes : gmap string (gmap string hval);
  zsets : gmap string (gmap string Z);
  ttl : gmap string Z
}.

Definition emptyStore : store := Store ∅ ∅ ∅.

(** How ioredis writes an argument on the wire. *)
Definition redisArg (v : jsval) : string :=
  match v with
  | JUndefined | JNull => ""
  | _ => toString v
  end.

Definition hvalOfString (s : string) : hval :=
  match parseDecimal s with
  | Some z => if String.eqb (pretty z) s then HInt z else HStr s
  | None => HStr s
  end.

Definition hvalOf (v : jsval) : hval :=
  match v with
  | JNum z => HInt z
  | _ => hvalOfString (redisArg v)
  end.

(** The increment argument of [ZINCRBY] and [HINCRBY] as Redis reads it;
    [None] when Redis answers with an error. *)
Definition redisNumber (v : jsval) : option Z :=
  match v with
  | JNum z => Some z
  | JStr s => parseDecimal s
  | _ => None
  end.

Inductive cmd :=
| HSet (key : string) (fields : list (string * hval))
| HIncrBy (key field : string) (incr : jsval)
| ZIncrBy (key : string) (incr : jsval) (member : string)
| Expire (key : string) (seconds : Z).

Definition hgetall (s : store) (key : string) : gmap string hval :=
  default ∅ (hashes s !! key).

Definition hget (s : store) (key field : string) : option hval :=
  hgetall s key !! field.

Definition zsetOf (s : store) (key : string) : gmap string Z :=
  default ∅ (zsets s !! key).

Definition zscore (s : store) (key member : string) : option Z :=
  zsetOf s key !! member.

Definition zcard (s : store) (key : string) : nat :=
  size (zsetOf s key).

(** [EXISTS key]. *)
Definition exists_ (s : store) (key : string) : bool :=
  bool_decide (is_Some (hashes s !! key)) || bool_decide (is_Some (zsets s !! key)).

Definition hsetFields (fields : list (string * hval)) (h : gmap string hval)
  : gmap string hval :=
  fold_left (fun acc fv => <[fv.1 := fv.2]> acc) fields h.

Definition execCmd (s : store) (c : cmd) : store :=
  match c with
  | HSet key fields =>
      Store (<[key := hsetFields fields (hgetall s key)]> (hashes s)) (zsets s) (ttl s)
  | HIncrBy key field incr =>
      match redisNumber incr with
      | None => s
      | Some n =>
          match hget s key field with
          | Some (HStr _) => s
          | Some (HInt z) =>
              Store (<[key := <[field := HInt (z + n)]> (hgetall s key)]> (hashes s))
                    (zsets s) (ttl s)
          | None =>
              Store (<[key := <[field := HInt n]> (hgetall s key)]> (hashes s))
                    (zsets s) (ttl s)
          end
      end
  | ZIncrBy key incr member =>
      match redisNumber incr with
      | None => s
      | Some n =>
          Store (hashes s)
                (<[key := <[member := default 0 (zscore s key member) + n]> (zsetOf s key)]>
                   (zsets s))
                (ttl s)
      end
  | Expire key seconds =>
      if exists_ s key
      then Store (hashes s) (zsets s) (<[key := seconds]> (ttl s))
      else s
  end.

(** [pipeline.exec()]. *)
Definition exec (s : store) (pipeline : list cmd) : store :=
  fold_left execCmd pipeline s.

(** The order of a sorted set: by score, ties by member bytes. *)
Definition outranks (a b : string * Z) : bool :=
  (b.2 <? a.2) || ((b.2 =? a.2) && String.ltb b.1 a.1).

(** [ZREVRANK key member]: 0 for the highest entry. *)
Definition zrevrank (s : store) (key member : string) : option Z :=
  match zscore s key member with
  | None => None
  | Some sc =>
      Some (Z.of_nat (List.length (filter (fun e => outranks e (member, sc) = true)
                                     (map_to_list (zsetOf s key)))))
  end.

(* ===================================================================== *)
(** ** Events, the clock and what the engine emits *)
(* ===================================================================== *)

(** The object [JSON.parse] returns for a message; an absent field reads as
    [JUndefined]. *)
Record event := Event {
  playerId : jsval;
  username : jsval;
  gameMode : jsval;
  score : jsval
}.

Global Instance event_eq_dec : EqDecision event.
Proof. solve_decision. Defined.

(** A consumed message, by what decoding it does: [JSON.parse] (or reading a
    field of its result) throws, or an object comes out. *)
Inductive message :=
| Garbled
| Json (e : event).

(** One reading of the clock ([new Date()]), with the derived values the code
    asks for.  A batch reads the clock once in this embedding. *)
Record date := Date {
  getFullYear : Z;
  (** [date - new Date(year, 0, 1)], milliseconds *)
  sinceStartOfYear : Z;
  (** [new Date(year, 0, 1).getDay()], Sunday is 0 *)
  startOfYearDay : Z;
  toISOString : string;
  (** [Date.now()] *)
  now : Z
}.

Record rankChange := RankChange {
  rc_gameMode : jsval;
  rc_playerId : jsval;
  newRank : Z;
  oldRank : option Z;
  rc_score : Z
}.

Global Instance rankChange_eq_dec : EqDecision rankChange.
Proof. solve_decision. Defined.

Inductive logline :=
| InvalidEventData (e : event)
| ErrorParsingMessage
| InvalidWeeklyScore (score gameMode playerId : jsval)
| RebuildPhaseComplete
| ProcessedBatch (n : nat) (rebuilding : bool).

Inductive effect :=
| Log (l : logline)
| Publish (n : rankChange)
| InvalidateCache (paths : list string).

Definition isPublish (x : effect) : bool :=
  match x with Publish _ => true | _ => false end.

(** The [leaderboard-updated] messages of a trace, in order. *)
Definition published (out : list effect) : list rankChange :=
  omap (fun x => match x with Publish n => Some n | _ => None end) out.

(* ===================================================================== *)
(** ** redisService *)
(* ===================================================================== *)

Definition ceilDiv (a b : Z) : Z := - ((- a) / b).

Definition padStart2 (s : string) : string :=
  if (String.length s <? 2)%nat then "0" +:+ s else s.

(** [Math.ceil((pastDaysOfYear + startOfYear.getDay() + 1) / 7)] where
    [pastDaysOfYear = (date - startOfYear) / 86400000] is not rounded.  The
    quotient is taken exactly: a millisecond is 1/86400000 of a day, far more
    than the rounding error of a double of this size, so the double
    computation crosses an integer exactly where the exact one does. *)
Definition weekNumber (d : date) : Z :=
  ceilDiv (sinceStartOfYear d + (startOfYearDay d + 1) * 86400000) (7 * 86400000).

Definition getWeekIdentifier (d : date) : string :=
  pretty (getFullYear d) +:+ "-W" +:+ padStart2 (pretty (weekNumber d)).

Definition globalKey (gameMode : jsval) : string :=
  "leaderboard:" +:+ toString gameMode +:+ ":global".

Definition dailyKey (gameMode : jsval) (today : string) : string :=
  "leaderboard:" +:+ toString gameMode +:+ ":daily:" +:+ today.

Definition weeklyKey (gameMode : jsval) (weekId : string) : string :=
  "leaderboard:" +:+ toString gameMode +:+ ":weekly:" +:+ weekId.

Definition playerKey (playerId : jsval) : string :=
  "player:" +:+ toString playerId.

(** [getPlayerRank(gameMode, playerId, "global")]: the pair of [rank] and
    [score], or [None] for [null]. *)
Definition getPlayerRank (s : store) (gameMode playerId : jsval) : option (Z * Z) :=
  match zrevrank s (globalKey gameMode) (redisArg playerId),
        zscore s (globalKey gameMode) (redisArg playerId) with
  | Some rank, Some sc => Some (rank + 1, sc)
  | _, _ => None
  end.

Definition updateWeeklyLeaderboard (d : date) (gameMode playerId score : jsval)
    (s : store) : store * list effect :=
  match Number score with
  | None => (s, [Log (InvalidWeeklyScore score gameMode playerId)])
  | Some numericScore =>
      if numericScore =? 0
      then (s, [Log (InvalidWeeklyScore score gameMode playerId)])
      else
        let key := weeklyKey gameMode (getWeekIdentifier d) in
        let s1 := execCmd s (ZIncrBy key (JNum numericScore) (redisArg playerId)) in
        (execCmd s1 (Expire key (28 * 24 * 60 * 60)), [])
  end.

(* ===================================================================== *)
(** ** The consumer: [eachBatch] *)
(* ===================================================================== *)

Record engine := Engine {
  isRebuilding : bool;
  consecutiveEmptyBatches : Z;
  lastBatchProcessedTime : option Z;
  rebuildCheckInterval : bool
}.

Definition EMPTY_BATCH_THRESHOLD : Z := 3.

(** The validation of a decoded event: [true] when the event is skipped. *)
Definition invalidEvent (e : event) : bool :=
  negb (truthy (playerId e))
  || bool_decide (score e = JUndefined)
  || bool_decide (score e = JNull)
  || bool_decide (score e = JStr "").

(** The parsing loop: the accepted events, and what it writes on the
    console. *)
Fixpoint parseMessages (msgs : list message) : list event * list effect :=
  match msgs with
  | [] => ([], [])
  | Garbled :: rest =>
      let '(events, out) := parseMessages rest in
      (events, Log ErrorParsingMessage :: out)
  | Json e :: rest =>
      let '(events, out) := parseMessages rest in
      if invalidEvent e
      then (events, Log (InvalidEventData e) :: out)
      else (e :: events, out)
  end.

(** [`${event.playerId}:${event.gameMode}`] *)
Definition keyOf (e : event) : string :=
  toString (playerId e) +:+ ":" +:+ toString (gameMode e).

(** The snapshot loop: one [getPlayerRank] per key, at its first event. *)
Definition initialRanksOf (s : store) (events : list event) : gmap string (option Z) :=
  fold_left
    (fun (initialRanks : gmap string (option Z)) e =>
       match initialRanks !! keyOf e with
       | Some _ => initialRanks
       | None =>
           <[keyOf e :=
               match getPlayerRank s (gameMode e) (playerId e) with
               | Some (rank, _) => if rank =? 0 then None else Some rank
               | None => None
               end]> initialRanks
       end)
    events ∅.

(** [eventGroups]: a [Map] keeps its keys in the order of first insertion. *)
Fixpoint groupPush (key : string) (e : event) (groups : list (string * list event))
  : list (string * list event) :=
  match groups with
  | [] => [(key, [e])]
  | (k, es) :: rest =>
      if decide (k = key) then (k, es ++ [e]) :: rest
      else (k, es) :: groupPush key e rest
  end.

Definition eventGroupsOf (events : list event) : list (string * list event) :=
  fold_left (fun groups e => groupPush (keyOf e) e groups) events [].

Definition standaloneEventsOf (groups : list (string * list event)) : list event :=
  flat_map (fun g => match g.2 with [e] => [e] | _ => [] end) groups.

(** The commands both paths queue for one event, in the order of the code. *)
Definition eventCmds (d : date) (playerExists : bool) (e : event) : list cmd :=
  let today := beforeT (toISOString d) in
  [ if playerExists
    then HSet (playerKey (playerId e)) [("username", hvalOf (username e))]
    else HSet (playerKey (playerId e))
              [("username", hvalOf (username e));
               ("total_score", HInt 0);
               ("games_played", HInt 0);
               ("created_at", hvalOfString (toISOString d))];
    ZIncrBy (globalKey (gameMode e)) (score e) (redisArg (playerId e));
    ZIncrBy (dailyKey (gameMode e) today) (score e) (redisArg (playerId e));
    Expire (dailyKey (gameMode e) today) (7 * 24 * 60 * 60);
    HIncrBy (playerKey (playerId e)) "total_score" (score e);
    HIncrBy (playerKey (playerId e)) "games_played" (JNum 1) ].

Definition top100Paths (gameMode : jsval) : list string :=
  [ "/api/leaderboard/" +:+ toString gameMode +:+ "/top100";
    "/api/leaderboard/" +:+ toString gameMode +:+ "?limit=100&offset=0";
    "/api/leaderboard/" +:+ toString gameMode +:+ "?type=global&limit=100&offset=0" ].

(** The notification block shared by both paths: publish when the rank read
    after the update differs from [previousRank], then purge the top-100
    views when either rank is within the first hundred. *)
Definition notify (e : event) (previousRank : option Z) (newRankData : option (Z * Z))
  : list effect :=
  match newRankData with
  | Some (rank, sc) =>
      if bool_decide (Some rank ≠ previousRank)
      then Publish (RankChange (gameMode e) (playerId e) rank previousRank sc)
           :: (if match previousRank with Some p => p <=? 100 | None => false end
                  || (rank <=? 100)
               then [InvalidateCache (top100Paths (gameMode e))]
               else [])
      else []
  | None => []
  end.

Record run := Run {
  redis : store;
  currentRanks : gmap string Z;
  out : list effect
}.

(** The store after one event of a hot group: the weekly update is awaited
    first, then the event's own pipeline is executed. *)
Definition applyEvent (d : date) (s : store) (e : event) : store :=
  let playerExists := exists_ s (playerKey (playerId e)) in
  let s1 := (updateWeeklyLeaderboard d (gameMode e) (playerId e) (score e) s).1 in
  exec s1 (eventCmds d playerExists e).

(** The body of the loop over the events of a hot group. *)
Definition processHotEvent (d : date) (rebuilding : bool)
    (initialRanks : gmap string (option Z)) (key : string) (r : run) (e : event) : run :=
  let previousRank :=
    match currentRanks r !! key with
    | Some rank => Some rank
    | None => default None (initialRanks !! key)
    end in
  let weekly := (updateWeeklyLeaderboard d (gameMode e) (playerId e) (score e) (redis r)).2 in
  let s' := applyEvent d (redis r) e in
  let newRankData := getPlayerRank s' (gameMode e) (playerId e) in
  Run s'
      (match newRankData with
       | Some (rank, _) => <[key := rank]> (currentRanks r)
       | None => currentRanks r
       end)
      (out r ++ weekly ++ (if rebuilding then [] else notify e previousRank newRankData)).

Definition processGroup (d : date) (rebuilding : bool)
    (initialRanks : gmap string (option Z)) (r : run) (g : string * list event) : run :=
  if (1 <? List.length g.2)%nat
  then fold_left (processHotEvent d rebuilding initialRanks g.1) g.2 r
  else r.

(** Queueing one standalone event: the existence test and the weekly update
    run at once, the event's commands wait in the shared pipeline. *)
Definition queueStandalone (d : date) (acc : store * list cmd * list effect) (e : event)
  : store * list cmd * list effect :=
  let '(s, pipeline, o) := acc in
  let playerExists := exists_ s (playerKey (playerId e)) in
  let '(s', weekly) := updateWeeklyLeaderboard d (gameMode e) (playerId e) (score e) s in
  (s', pipeline ++ eventCmds d playerExists e, o ++ weekly).

Definition notifyStandalone (initialRanks : gmap string (option Z)) (s : store) (e : event)
  : list effect :=
  notify e (default None (initialRanks !! keyOf e)) (getPlayerRank s (gameMode e) (playerId e)).

Definition processStandalone (d : date) (rebuilding : bool)
    (initialRanks : gmap string (option Z)) (standaloneEvents : list event) (r : run) : run :=
  match standaloneEvents with
  | [] => r
  | _ =>
      let '(s1, pipeline, o1) := fold_left (queueStandalone d) standaloneEvents (redis r, [], out r) in
      let s2 := exec s1 pipeline in
      Run s2 (currentRanks r)
          (o1 ++ (if rebuilding then []
                  else flat_map (notifyStandalone initialRanks s2) standaloneEvents))
  end.

(** The part of the handler after the bookkeeping, for a non-empty list of
    accepted events. *)
Definition processEvents (d : date) (rebuilding : bool) (s : store) (events : list event)
  : run :=
  let initialRanks := initialRanksOf s events in
  let groups := eventGroupsOf events in
  let r1 := fold_left (processGroup d rebuilding initialRanks) groups (Run s ∅ []) in
  let r2 := processStandalone d rebuilding initialRanks (standaloneEventsOf groups) r1 in
  Run (redis r2) (currentRanks r2)
      (out r2 ++ [Log (ProcessedBatch (List.length events) rebuilding)]).

Definition eachBatch (d : date) (eng : engine) (s : store) (messages : list message)
  : engine * store * list effect :=
  let '(events, parseOut) := parseMessages messages in
  match events with
  | [] =>
      if isRebuilding eng then
        let n := consecutiveEmptyBatches eng + 1 in
        if EMPTY_BATCH_THRESHOLD <=? n
        then (Engine false 0 None false, s, parseOut ++ [Log RebuildPhaseComplete])
        else (Engine true n (Some (now d)) (rebuildCheckInterval eng), s, parseOut)
      else (eng, s, parseOut)
  | _ =>
      let eng' :=
        if isRebuilding eng
        then Engine true 0 (Some (now d)) (rebuildCheckInterval eng)
        else eng in
      let r := processEvents d (isRebuilding eng) s events in
      (eng', redis r, parseOut ++ out r)
  end.

(** A sequence of batches, each with the clock reading it is handled at. *)
Definition eachBatches (eng : engine) (s : store) (batches : list (date * list message))
  : engine * store * list effect :=
  fold_left
    (fun acc b =>
       let '(eng1, s1, o1) := acc in
       let '(eng2, s2, o2) := eachBatch b.1 eng1 s1 b.2 in
       (eng2, s2, o1 ++ o2))
    batches (eng, s, []).

(* ===================================================================== *)
(** ** redisService.needsRebuild *)
(* ===================================================================== *)

(** An awaited call either yields a value or rejects. *)
Inductive result (A : Type) :=
| Ok (a : A)
| Throws.
Arguments Ok {A} a.
Arguments Throws {A}.

(** What the Redis client answers during one run of [needsRebuild]:
    [getAllGameModes()] (the ids of the seeded modes), [zcard] per key, and
    the replies to the successive [SCAN ... MATCH player:*] calls, the last
    of which carries the cursor ["0"].  The loop is a do-while, so there is a
    first reply. *)
Record redisClient := RedisClient {
  getAllGameModes : result (list Z);
  zcardReply : string -> result nat;
  scanFirst : result (list string);
  scanMore : list (result (list string))
}.

(** [keys.filter(key => !key.includes(":last_submission"))] *)
Definition playerKeysOf (keys : list string) : list string :=
  filter (fun key => includes ":last_submission" key = false) keys.

(** The scan of the branch taken when no game mode is seeded: it leaves at
    the first reply that holds a player key. *)
Fixpoint scanUntilPlayer (replies : list (result (list string))) (playerCount : nat)
  : result bool :=
  match replies with
  | [] => Ok (playerCount =? 0)%nat
  | Throws :: _ => Throws
  | Ok keys :: rest =>
      let playerCount := (playerCount + List.length (playerKeysOf keys))%nat in
      if (0 <? playerCount)%nat then Ok false else scanUntilPlayer rest playerCount
  end.

(** The scan of the other branch: it counts through all replies. *)
Fixpoint scanAll (replies : list (result (list string))) (playerCount : nat)
  : result bool :=
  match replies with
  | [] => Ok (playerCount =? 0)%nat
  | Throws :: _ => Throws
  | Ok keys :: rest =>
      scanAll rest (playerCount + List.length (playerKeysOf keys))%nat
  end.

(** The loop over the game modes; [Ok true] when no leaderboard has data. *)
Fixpoint allLeaderboardsEmpty (c : redisClient) (gameModes : list Z) : result bool :=
  match gameModes with
  | [] => Ok true
  | id :: rest =>
      match zcardReply c (globalKey (JNum id)) with
      | Throws => Throws
      | Ok count => if (0 <? count)%nat then Ok false else allLeaderboardsEmpty c rest
      end
  end.

(** The body of the [try] block. *)
Definition needsRebuildTry (c : redisClient) : result bool :=
  match getAllGameModes c with
  | Throws => Throws
  | Ok [] => scanUntilPlayer (scanFirst c :: scanMore c) 0
  | Ok gameModes =>
      match allLeaderboardsEmpty c gameModes with
      | Throws => Throws
      | Ok false => Ok false
      | Ok true => scanAll (scanFirst c :: scanMore c) 0
      end
  end.

Definition needsRebuild (c : redisClient) : bool :=
  match needsRebuildTry c with
  | Ok b => b
  | Throws => true
  end.

(** The number of player keys in a run of scan replies. *)
Fixpoint playerKeyCount (replies : list (result (list string))) : nat :=
  match replies with
  | [] => 0
  | Ok keys :: rest => List.length (playerKeysOf keys) + playerKeyCount rest
  | Throws :: rest => playerKeyCount rest
  end.

(** No reply of the client is a rejection. *)
Definition clientHealthy (c : redisClient) (gameModes : list Z) : Prop :=
  getAllGameModes c = Ok gameModes
  /\ (forall key, zcardReply c key <> Throws)
  /\ Forall (fun r => r <> Throws) (scanFirst c :: scanMore c).

(** Some known game mode has a non-empty global leaderboard. *)
Definition someLeaderboardHasData (c : redisClient) (gameModes : list Z) : Prop :=
  exists id count,
    id ∈ gameModes /\ zcardReply c (globalKey (JNum id)) = Ok count /\ (0 < count)%nat.

(** A player record exists: some scanned key is not a rate-limiter key. *)
Definition somePlayerExists (c : redisClient) : Prop :=
  exists keys key,
    Ok keys ∈ scanFirst c :: scanMore c /\ key ∈ keys
    /\ includes ":last_submission" key = false.

(* ===================================================================== *)
(** ** util/db.resetConsumerOffsetToEarliest *)
(* ===================================================================== *)

(** An awaited Kafka call resolves, or rejects with an error whose
    [message] may be absent. *)
Inductive outcome :=
| Resolves
| Rejects (message : option string).

Record kafkaCalls := KafkaCalls {
  adminConnect : outcome;
  consumerDisconnect : outcome;
  deleteGroups : outcome;
  adminDisconnect : outcome;
  consumerConnect : outcome
}.

Inductive dbLog :=
| DisconnectedConsumer
| ConsumerNotConnected
| DeletedGroup
| GroupDoesNotExistYet
| CouldNotDeleteGroup (message : option string)
| ReconnectedConsumer
| ErrorReconnecting
| ErrorResetting.

Definition resetConsumerOffsetToEarliest (k : kafkaCalls) : bool * list dbLog :=
  match adminConnect k with
  | Rejects _ =>
      (false, ErrorResetting ::
              match consumerConnect k with Resolves => [] | Rejects _ => [ErrorReconnecting] end)
  | Resolves =>
      let l1 := match consumerDisconnect k with
                | Resolves => [DisconnectedConsumer]
                | Rejects _ => [ConsumerNotConnected]
                end in
      let l2 := match deleteGroups k with
                | Resolves => [DeletedGroup]
                | Rejects (Some m) =>
                    if includes "does not exist" m then [GroupDoesNotExistYet]
                    else [CouldNotDeleteGroup (Some m)]
                | Rejects None => [CouldNotDeleteGroup None]
                end in
      match adminDisconnect k with
      | Rejects _ =>
          (false, l1 ++ l2 ++ ErrorResetting ::
                  match consumerConnect k with Resolves => [] | Rejects _ => [ErrorReconnecting] end)
      | Resolves =>
          match consumerConnect k with
          | Resolves => (true, l1 ++ l2 ++ [ReconnectedConsumer])
          | Rejects _ => (false, l1 ++ l2 ++ [ErrorReconnecting])
          end
      end
  end.

(** The delete failed, and not because the group is unknown. *)
Definition deleteFailsOtherwise (k : kafkaCalls) : bool :=
  match deleteGroups k with
  | Resolves => false
  | Rejects (Some m) => negb (includes "does not exist" m)
  | Rejects None => true
  end.

(* ===================================================================== *)
(** ** The consumer: start, idle watcher, stop; the Redis retry delay *)
(* ===================================================================== *)

Definition REBUILD_IDLE_TIMEOUT : Z := 5000.

(** The callback of the one-second interval that [startConsumer] arms,
    called at clock reading [nowMs]; an interval that was cleared does not
    call it.  Console output is left out. *)
Definition rebuildCheck (nowMs : Z) (eng : engine) : engine :=
  if rebuildCheckInterval eng then
    match lastBatchProcessedTime eng with
    | Some t =>
        if isRebuilding eng && negb (t =? 0)
        then if REBUILD_IDLE_TIMEOUT <=? nowMs - t
             then Engine false 0 None false
             else eng
        else eng
    | None => eng
    end
  else eng.

(** The interval firing at the clock readings [ticks], no batch arriving in
    between. *)
Definition rebuildChecks (ticks : list Z) (eng : engine) : engine :=
  fold_left (fun eng nowMs => rebuildCheck nowMs eng) ticks eng.

(** [startConsumer], up to its call of [consumer.run]. *)
Inductive started :=
| AlreadyRunning
| StartFailed (eng : engine)
| Running (eng : engine) (fromBeginning : bool).

Definition startConsumer (isRunning : bool) (eng : engine) (c : redisClient)
    (k : kafkaCalls) (subscribe : outcome) (nowMs : Z) : started :=
  if isRunning then AlreadyRunning
  else if needsRebuild c then
    let resetSuccess := (resetConsumerOffsetToEarliest k).1 in
    match subscribe with
    | Rejects _ =>
        StartFailed (Engine true (consecutiveEmptyBatches eng)
                            (lastBatchProcessedTime eng) (rebuildCheckInterval eng))
    | Resolves =>
        Running (Engine true (consecutiveEmptyBatches eng) (Some nowMs) true) true
    end
  else
    match subscribe with
    | Rejects _ =>
        StartFailed (Engine false (consecutiveEmptyBatches eng)
                            (lastBatchProcessedTime eng) (rebuildCheckInterval eng))
    | Resolves =>
        Running (Engine false (consecutiveEmptyBatches eng)
                        (lastBatchProcessedTime eng) (rebuildCheckInterval eng)) false
    end.

(** [stopConsumer]: the new [isRunning] and the module state. *)
Definition stopConsumer (isRunning : bool) (eng : engine) (disconnect : outcome)
  : bool * engine :=
  if isRunning then
    match disconnect with
    | Resolves => (false, Engine false 0 None false)
    | Rejects _ =>
        (true, Engine (isRebuilding eng) (consecutiveEmptyBatches eng)
                      (lastBatchProcessedTime eng) false)
    end
  else (false, eng).

(** [retryStrategy] of the Redis client in [util/db.js]: the delay in
    milliseconds before reconnection attempt [times]. *)
Definition retryStrategy (times : Z) : Z := Z.min (times * 50) 2000.


(* ===================================================================== *)
(** ** redisService: registering a player *)

(** [createOrUpdatePlayer(playerId, username)] at clock reading [d]: the
    existence test is awaited, then the one queued [HSET] is executed. *)
Definition createOrUpdatePlayer (d : date) (playerId username : jsval) (s : store) : store :=
  let playerExists := exists_ s (playerKey playerId) in
  exec s
    [ if negb playerExists
      then HSet (playerKey playerId)
                [("username", hvalOf username);
                 ("total_score", HInt 0);
                 ("games_played", HInt 0);
                 ("created_at", hvalOfString (toISOString d))]
      else HSet (playerKey playerId) [("username", hvalOf username)] ].

(* ===================================================================== *)
(** ** redisService: the submission rate limit *)

Record rateLimit := RateLimit {
  allowed : bool;
  remainingSeconds : option Z
}.

(** [checkRateLimit(playerId, minIntervalSeconds)].  [lastSubmission] is
    the reply of [GET] on the player's key: the instant, in milliseconds,
    whose ISO string the key holds, or [None] for [null]; [now] is the
    reading of [Date.now()] and [written] the later reading for the string
    that is stored.  The result comes with the [SETEX] issued, if any: its
    lifetime in seconds and the instant written.  [elapsed] is a number of
    milliseconds divided by 1000, so the comparison and the rounding up are
    taken on the milliseconds. *)
Definition checkRateLimit (now written : Z) (minIntervalSeconds : Z)
    (lastSubmission : option Z) : rateLimit * option (Z * Z) :=
  let refusal :=
    match lastSubmission with
    | Some lastTime =>
        let elapsedMs := now - lastTime in
        if elapsedMs <? 1000 * minIntervalSeconds
        then Some (RateLimit false
                     (Some (ceilDiv (1000 * minIntervalSeconds - elapsedMs) 1000)))
        else None
    | None => None
    end in
  match refusal with
  | Some r => (r, None)
  | None => (RateLimit true None, Some (minIntervalSeconds, written))
  end.

(* ===================================================================== *)
(** ** redisService: a page of the leaderboard *)

Fixpoint insertDesc (x : string * Z) (l : list (string * Z)) : list (string * Z) :=
  match l with
  | [] => [x]
  | y :: rest => if outranks x y then x :: l else y :: insertDesc x rest
  end.

(** The entries of a sorted set from the highest down. *)
Definition descending (z : gmap string Z) : list (string * Z) :=
  foldr insertDesc [] (map_to_list z).

(** [ZREVRANGE key start stop WITHSCORES], with the way Redis reads
    negative and out-of-range indices. *)
Definition zrevrange (s : store) (key : string) (start stop : Z) : list (string * Z) :=
  let l := descending (zsetOf s key) in
  let llen := Z.of_nat (List.length l) in
  let start1 := if start <? 0 then llen + start else start in
  let stop1 := if stop <? 0 then llen + stop else stop in
  let start2 := if start1 <? 0 then 0 else start1 in
  if (stop1 <? start2) || (llen <=? start2) then []
  else
    let stop2 := if llen <=? stop1 then llen - 1 else stop1 in
    take (Z.to_nat (stop2 - start2 + 1)) (drop (Z.to_nat start2) l).

(** An entry of the page; the [username] the service looks up for it is
    left out. *)
Record leaderboardEntry := Entry {
  rank : Z;
  entryPlayerId : string;
  entryScore : Z
}.

Record leaderboardPage := Page {
  leaderboard : list leaderboardEntry;
  totalCount : Z
}.

(** [getLeaderboard(gameMode, type, limit, offset)] at clock reading [d]. *)
Definition getLeaderboard (d : date) (s : store) (gameMode : jsval) (type : string)
    (limit offset : Z) : leaderboardPage :=
  let key :=
    if String.eqb type "daily"
    then dailyKey gameMode (beforeT (toISOString d))
    else globalKey gameMode in
  let totalCount := zcard s key in
  let results := zrevrange s key offset (offset + limit - 1) in
  Page (imap (fun index entry => Entry (offset + Z.of_nat index + 1) entry.1 entry.2) results)
       (Z.of_nat totalCount).


(* ===================================================================== *)
(** ** Definitions used to state the properties *)
(* ===================================================================== *)

(** The events of a batch that are accepted, and the decoded ones. *)
Definition acceptedOf (messages : list message) : list event :=
  (parseMessages messages).1.

Definition decodedOf (messages : list message) : list event :=
  omap (fun m => match m with Json e => Some e | Garbled => None end) messages.

(** Rejection as the specification words it: [playerId] missing, or [score]
    missing, null, empty or not a number. *)
Definition claimedReject (e : event) : bool :=
  bool_decide (playerId e = JUndefined)
  || bool_decide (score e = JUndefined)
  || bool_decide (score e = JNull)
  || bool_decide (score e = JStr "")
  || bool_decide (Number (score e) = None).

(** The weekly step is skipped, as the specification words it: the score is
    at most 0 or not a number. *)
Definition claimedWeeklySkip (score : jsval) : bool :=
  match Number score with
  | None => true
  | Some n => n <=? 0
  end.

(** The week number as the specification words it, from whole days. *)
Definition claimedWeekNumber (d : date) : Z :=
  ceilDiv (sinceStartOfYear d / 86400000 + startOfYearDay d + 1) 7.

Definition claimedWeekIdentifier (d : date) : string :=
  pretty (getFullYear d) +:+ "-W" +:+ padStart2 (pretty (claimedWeekNumber d)).

(** A score event as the data model types it: a string id, an integer game
    mode and an integer score. *)
Definition isScoreEvent (e : event) : bool :=
  match playerId e, gameMode e, score e with
  | JStr _, JNum _, JNum _ => true
  | _, _, _ => false
  end.

(** The sum of the scores of the events of player [p] in game mode [g]. *)
Fixpoint scoreSum (p : string) (g : Z) (events : list event) : Z :=
  match events with
  | [] => 0
  | e :: rest =>
      (if bool_decide (playerId e = JStr p /\ gameMode e = JNum g)
       then default 0 (redisNumber (score e)) else 0)
      + scoreSum p g rest
  end.

(** The global score of a member, 0 when absent. *)
Definition scoreOf (s : store) (key member : string) : Z :=
  default 0 (zscore s key member).

(** The accepted events of a sequence of batches. *)
Definition acceptedOfAll (batches : list (date * list message)) : list event :=
  flat_map (fun b => acceptedOf b.2) batches.

(** Every way to cut a list into the events already applied and the next. *)
Fixpoint cutsFrom (done : list event) (todo : list event) : list (list event * event) :=
  match todo with
  | [] => []
  | e :: rest => (done, e) :: cutsFrom (done ++ [e]) rest
  end.

(** What a hot group has to publish for its event [e], the events [done]
    having been applied before it in this group: the old rank is the
    snapshot for the first event and otherwise the rank in the store just
    before [e] is applied; the new rank is the rank just after. *)
Definition expectedChange (d : date) (snapshot : option Z) (s0 : store)
    (p g : jsval) (done : list event) (e : event) : list rankChange :=
  let before := fold_left (applyEvent d) done s0 in
  let after := applyEvent d before e in
  let old := match done with
             | [] => snapshot
             | _ => fst <$> getPlayerRank before g p
             end in
  match getPlayerRank after g p with
  | Some (new, sc) =>
      if bool_decide (Some new ≠ old) then [RankChange g p new old sc] else []
  | None => []
  end.

(** What a command adds to the score of member [m] of the sorted set [k]. *)
Definition zdelta (k m : string) (c : cmd) : Z :=
  match c with
  | ZIncrBy key incr member =>
      if bool_decide (key = k /\ member = m) then default 0 (redisNumber incr) else 0
  | _ => 0
  end.

Definition zdeltas (k m : string) (pipeline : list cmd) : Z :=
  foldr (fun c acc => zdelta k m c + acc) 0 pipeline.

(** [games_played] as [getPlayer] reads it: 0 when the field is absent. *)
Definition gamesPlayed (s : store) (p : jsval) : Z :=
  match hget s (playerKey p) "games_played" with
  | Some (HInt n) => n
  | _ => 0
  end.

(** The string holds no colon. *)
Fixpoint colonFree (s : string) : bool :=
  match s with
  | EmptyString => true
  | String c s' => negb (Ascii.eqb c ":") && colonFree s'
  end.

(** The events of the hot groups, group by group. *)
Definition hotEventsOf (groups : list (string * list event)) : list event :=
  flat_map (fun g => if (1 <? List.length g.2)%nat then g.2 else []) groups.

(** The events grouped under [key], in order. *)
Fixpoint groupOf (key : string) (groups : list (string * list event)) : list event :=
  match groups with
  | [] => []
  | (k, es) :: rest => if decide (k = key) then es else groupOf key rest
  end.

(** The rank the snapshot loop stores for the event. *)
Definition snapshotOf (s : store) (e : event) : option Z :=
  match getPlayerRank s (gameMode e) (playerId e) with
  | Some (rank, _) => if rank =? 0 then None else Some rank
  | None => None
  end.

(** What is known of the run when the events [done] of the group have been
    handled. *)
Definition hotInvariant (d : date) (s0 : store) (key : string) (p g : jsval)
    (done : list event) (r : run) : Prop :=
  redis r = fold_left (applyEvent d) done s0
  /\ match done with
     | [] => currentRanks r !! key = None
     | _ => exists rank sc, getPlayerRank (redis r) g p = Some (rank, sc)
                            /\ currentRanks r !! key = Some rank
     end.

(** What the handling of event [e] at clock reading [d] adds to the score
    of member [m] of the sorted set [k]: the weekly step, then the event's
    pipeline. *)
Definition weeklyDelta (d : date) (k m : string) (e : event) : Z :=
  match Number (score e) with
  | Some n =>
      if n =? 0 then 0
      else zdelta k m (ZIncrBy (weeklyKey (gameMode e) (getWeekIdentifier d))
                               (JNum n) (redisArg (playerId e)))
  | None => 0
  end.

Definition eventDelta (d : date) (k m : string) (e : event) : Z :=
  weeklyDelta d k m e + zdeltas k m (eventCmds d true e).

Definition deltaSum (d : date) (k m : string) (events : list event) : Z :=
  foldr (fun e acc => eventDelta d k m e + acc) 0 events.

Definition deltaSumAll (k m : string) (batches : list (date * list message)) : Z :=
  foldr (fun b acc => deltaSum b.1 k m (acceptedOf b.2) + acc) 0 batches.

(** What a command adds to the integer field [f] of the hash [k]. *)
Definition hdelta (k f : string) (c : cmd) : Z :=
  match c with
  | HIncrBy key field incr =>
      if bool_decide (key = k /\ field = f) then default 0 (redisNumber incr) else 0
  | _ => 0
  end.

Definition hdeltas (k f : string) (pipeline : list cmd) : Z :=
  foldr (fun c acc => hdelta k f c + acc) 0 pipeline.

(** The command does not overwrite field [f] of the hash [k]. *)
Definition keepsField (k f : string) (c : cmd) : bool :=
  match c with
  | HSet key fields =>
      negb (bool_decide (key = k)) || forallb (fun fv => negb (String.eqb fv.1 f)) fields
  | _ => true
  end.

(** The number of events of player [p], and the sum of their scores over
    all game modes. *)
Fixpoint gamesOf (p : string) (events : list event) : Z :=
  match events with
  | [] => 0
  | e :: rest => (if bool_decide (playerId e = JStr p) then 1 else 0) + gamesOf p rest
  end.

Fixpoint totalOf (p : string) (events : list event) : Z :=
  match events with
  | [] => 0
  | e :: rest =>
      (if bool_decide (playerId e = JStr p) then default 0 (redisNumber (score e)) else 0)
      + totalOf p rest
  end.

(** A store in which player [p1] has played three games. *)
Definition veteranStore : store :=
  Store {[ "player:p1" := {[ "username" := HStr "alice"; "total_score" := HInt 40;
                              "games_played" := HInt 3 ]} ]} ∅ ∅.

(** The sorted set [k], if it exists, expires after [T] seconds. *)
Definition expiresAfter (k : string) (T : Z) (s : store) : Prop :=
  is_Some (zsets s !! k) -> ttl s !! k = Some T.

(** The rank change has its old or its new rank within the first hundred. *)
Definition inTop100 (n : rankChange) : bool :=
  match oldRank n with Some p => p <=? 100 | None => false end || (newRank n <=? 100).

(** The traces in which every published rank change is a change, a cache
    purge follows at once every change that touches the first hundred, for
    the three top-100 paths of its game mode, and no other purge occurs. *)
Inductive purgePolicy : list effect -> Prop :=
| policy_nil : purgePolicy []
| policy_log (l : logline) (o : list effect) :
    purgePolicy o -> purgePolicy (Log l :: o)
| policy_quiet (n : rankChange) (o : list effect) :
    Some (newRank n) <> oldRank n -> inTop100 n = false ->
    purgePolicy o -> purgePolicy (Publish n :: o)
| policy_purge (n : rankChange) (o : list effect) :
    Some (newRank n) <> oldRank n -> inTop100 n = true ->
    purgePolicy o ->
    purgePolicy (Publish n :: InvalidateCache (top100Paths (rc_gameMode n)) :: o).

(** The two clock readings fall on the same UTC day and in the same week:
    the handler then writes to the same daily and weekly keys. *)
Definition sameDay (d d' : date) : Prop :=
  beforeT (toISOString d) = beforeT (toISOString d')
  /\ getWeekIdentifier d = getWeekIdentifier d'.

(** The list runs from the highest entry down: every entry outranks all
    that follow it. *)
Fixpoint rankedDesc (l : list (string * Z)) : Prop :=
  match l with
  | [] => True
  | x :: rest => Forall (fun y => outranks x y = true) rest /\ rankedDesc rest
  end.


(** Sample inputs. *)
Definition saturdayNoon : date :=
  Date 2023 (6 * 86400000 + 43200000) 0 "2023-01-07T12:00:00.000Z" 1673092800000.

Definition tailing : engine := Engine false 0 None false.
Definition rebuilding : engine := Engine true 0 (Some 0) true.

Definition mkEvent (p : string) (g : Z) (sc : jsval) : event :=
  Event (JStr p) (JStr "alice") (JNum g) sc.

(** Two batches, the first with a hot group, a standalone event and a
    message that does not decode. *)
Definition sampleBatches : list (date * list message) :=
  [ (saturdayNoon,
     [Json (Event (JStr "p1") (JStr "alice") (JNum 1) (JNum 5));
      Json (Event (JStr "p2") (JStr "bob") (JNum 1) (JNum 7));
      Garbled;
      Json (Event (JStr "p1") (JStr "alice") (JNum 1) (JNum 5))]);
    (saturdayNoon,
     [Json (Event (JStr "p1") (JStr "alice") (JNum 1) (JNum 100))]) ].

(** A batch with a hot group of player [p1] and a standalone event. *)
Definition hotBatch : list event :=
  [mkEvent "p1" 1 (JNum 5); mkEvent "p2" 1 (JNum 7); mkEvent "p1" 1 (JNum 5)].

(** A new player plays two game modes in one batch. *)
Definition twoModesBatch : list message :=
  [Json (mkEvent "p1" 1 (JNum 5)); Json (mkEvent "p1" 2 (JNum 7))].

Definition healthyEmptyClient : redisClient :=
  RedisClient (Ok [1; 2; 3]) (fun _ => Ok 0%nat)
              (Ok ["player:p1:last_submission"]) [Ok []].

Definition unseededClient : redisClient :=
  RedisClient (Ok []) (fun _ => Ok 0%nat)
              (Ok ["player:p1:last_submission"]) [Ok ["player:p1"]; Throws].

Definition unreachableClient : redisClient :=
  RedisClient Throws (fun _ => Throws) Throws [].

Definition unseededEmptyClient : redisClient :=
  RedisClient (Ok []) (fun _ => Ok 0%nat) (Ok []) [].

Definition deleteTimesOut : kafkaCalls :=
  KafkaCalls Resolves Resolves (Rejects (Some "The group is not empty")) Resolves Resolves.

(* ===================================================================== *)
(** * Properties *)
(* ===================================================================== *)

(** ** Parsing and validation *)

Lemma parseMessages_accepted (messages : list message) :
  acceptedOf messages = filter (fun e => invalidEvent e = false) (decodedOf messages).
Proof.
  unfold acceptedOf, decodedOf.
  induction messages as [|m rest IH]; [done|].
  destruct m as [|e]; simpl.
  - destruct (parseMessages rest) as [events o]; simpl in *. exact IH.
  - destruct (parseMessages rest) as [events o]; simpl in *.
    rewrite filter_cons. destruct (invalidEvent e); simpl; [exact IH|].
    f_equal. exact IH.
Qed.

Lemma parseMessages_logs (messages : list message) :
  (List.length (parseMessages messages).2 + List.length (acceptedOf messages)
   = List.length messages)%nat
  /\ Forall (fun x => exists l, x = Log l) (parseMessages messages).2.
Proof.
  unfold acceptedOf.
  induction messages as [|m rest [IHn IHl]]; [by split; [|constructor]|].
  destruct m as [|e]; simpl; destruct (parseMessages rest) as [events o]; simpl in *.
  - split; [lia|]. constructor; eauto.
  - destruct (invalidEvent e); simpl; split; try lia; auto.
    constructor; eauto.
Qed.

Lemma invalidEvent_iff (e : event) :
  invalidEvent e = true
  <-> truthy (playerId e) = false \/ score e = JUndefined \/ score e = JNull
      \/ score e = JStr "".
Proof.
  unfold invalidEvent.
  rewrite !orb_true_iff, negb_true_iff, !bool_decide_eq_true. tauto.
Qed.

(** C6, as the code has it: a decoded event is rejected exactly when its
    [playerId] is falsy or its [score] is [undefined], [null] or the empty
    string (a score that is not a number is accepted); the accepted events
    are the decoded events that pass, in arrival order, and every other
    message leaves one line on the console and nothing else. *)
Theorem parse_rejects_absent_fields_only (messages : list message) :
  (forall e, invalidEvent e = true
             <-> truthy (playerId e) = false \/ score e = JUndefined
                 \/ score e = JNull \/ score e = JStr "")
  /\ acceptedOf messages = filter (fun e => invalidEvent e = false) (decodedOf messages)
  /\ (List.length (parseMessages messages).2 + List.length (acceptedOf messages)
      = List.length messages)%nat
  /\ Forall (fun x => exists l, x = Log l) (parseMessages messages).2.
Proof.
  split; [exact invalidEvent_iff|].
  split; [exact (parseMessages_accepted messages)|].
  exact (parseMessages_logs messages).
Qed.

(** C6, the claim as stated fails: a score that is not a number passes the
    validation of the handler. *)
Lemma nonnumeric_score_is_accepted :
  claimedReject (mkEvent "p1" 1 (JStr "abc")) = true
  /\ acceptedOf [Json (mkEvent "p1" 1 (JStr "abc"))] = [mkEvent "p1" 1 (JStr "abc")].
Proof. split; reflexivity. Qed.

(** ** The store under one command *)

Lemma zscore_execCmd (s : store) (c : cmd) (k m : string) :
  zscore (execCmd s c) k m =
  match c with
  | ZIncrBy key incr member =>
      match redisNumber incr with
      | Some n => if decide (key = k /\ member = m)
                  then Some (scoreOf s k m + n) else zscore s k m
      | None => zscore s k m
      end
  | _ => zscore s k m
  end.
Proof.
  destruct c as [key fields|key field incr|key incr member|key seconds]; simpl.
  - reflexivity.
  - destruct (redisNumber incr); [|reflexivity].
    destruct (hget s key field) as [[old|old]|]; reflexivity.
  - destruct (redisNumber incr) as [n|]; [|reflexivity].
    unfold scoreOf, zscore, zsetOf; simpl.
    destruct (decide (key = k)) as [->|Hk].
    + rewrite lookup_insert_eq; simpl.
      destruct (decide (member = m)) as [->|Hm].
      * rewrite lookup_insert_eq. by rewrite decide_True.
      * rewrite lookup_insert_ne by done. rewrite decide_False by tauto. done.
    + rewrite lookup_insert_ne by done. rewrite decide_False by tauto. done.
  - destruct (exists_ s key); reflexivity.
Qed.

Lemma ttl_execCmd (s : store) (c : cmd) (k : string) :
  ttl (execCmd s c) !! k =
  match c with
  | Expire key seconds =>
      if exists_ s key && bool_decide (key = k) then Some seconds else ttl s !! k
  | _ => ttl s !! k
  end.
Proof.
  destruct c as [key fields|key field incr|key incr member|key seconds]; simpl.
  - reflexivity.
  - destruct (redisNumber incr); [|reflexivity].
    destruct (hget s key field) as [[old|old]|]; reflexivity.
  - destruct (redisNumber incr); reflexivity.
  - destruct (exists_ s key); simpl; [|reflexivity].
    case_bool_decide as Hk.
    + subst. apply lookup_insert_eq.
    + by apply lookup_insert_ne.
Qed.

Lemma hashes_zincrby (s : store) (key : string) (incr : jsval) (member : string) :
  hashes (execCmd s (ZIncrBy key incr member)) = hashes s.
Proof. simpl. destruct (redisNumber incr); reflexivity. Qed.

Lemma hashes_expire (s : store) (key : string) (seconds : Z) :
  hashes (execCmd s (Expire key seconds)) = hashes s.
Proof. simpl. destruct (exists_ s key); reflexivity. Qed.

Lemma exists_after_zincrby (s : store) (key member : string) (n : Z) :
  exists_ (execCmd s (ZIncrBy key (JNum n) member)) key = true.
Proof.
  unfold exists_; simpl. rewrite lookup_insert_eq.
  rewrite (bool_decide_eq_true_2 (is_Some (Some _))) by eauto.
  apply orb_true_r.
Qed.

(** ** The weekly step *)



(** ** The week identifier *)

Lemma weekNumber_exact (d : date) :
  let n := sinceStartOfYear d / 86400000 + startOfYearDay d + 1 in
  weekNumber d =
  if sinceStartOfYear d mod 86400000 =? 0 then ceilDiv n 7 else n / 7 + 1.
Proof.
  intros n. subst n. unfold weekNumber, ceilDiv.
  destruct (Z.eqb_spec (sinceStartOfYear d mod 86400000) 0) as [H0|H0];
    Z.to_euclidean_division_equations; lia.
Qed.



(** ** Resetting the consumer group *)

(** C9, as the code has it: the result is [true] exactly when the admin
    client connects and disconnects and the consumer reconnects; a failing
    consumer disconnect or group delete, whatever its reason, is logged and
    does not change the result. *)
Theorem reset_succeeds_iff_admin_and_reconnect_succeed (k : kafkaCalls) :
  ((resetConsumerOffsetToEarliest k).1 = true
   <-> adminConnect k = Resolves /\ adminDisconnect k = Resolves
       /\ consumerConnect k = Resolves)
  /\ (adminConnect k = Resolves ->
      deleteFailsOtherwise k = true ->
      exists m, CouldNotDeleteGroup m ∈ (resetConsumerOffsetToEarliest k).2).
Proof.
  unfold resetConsumerOffsetToEarliest, deleteFailsOtherwise. split.
  - destruct (adminConnect k), (adminDisconnect k), (consumerConnect k);
      simpl; split; intros H; try discriminate; try tauto;
      destruct H as (? & ? & ?); discriminate.
  - intros -> Hdel.
    destruct (deleteGroups k) as [|[m|]]; [discriminate| |].
    + apply negb_true_iff in Hdel. rewrite Hdel. exists (Some m).
      destruct (adminDisconnect k), (consumerConnect k); simpl; set_solver.
    + exists None.
      destruct (adminDisconnect k), (consumerConnect k); simpl; set_solver.
Qed.

Lemma reset_succeeds_iff_admin_and_reconnect_succeed_witness :
  ((resetConsumerOffsetToEarliest deleteTimesOut).1 = true
   <-> adminConnect deleteTimesOut = Resolves /\ adminDisconnect deleteTimesOut = Resolves
       /\ consumerConnect deleteTimesOut = Resolves)
  /\ exists m, CouldNotDeleteGroup m ∈ (resetConsumerOffsetToEarliest deleteTimesOut).2.
Proof.
  destruct (reset_succeeds_iff_admin_and_reconnect_succeed deleteTimesOut) as [H1 H2].
  split; [exact H1|]. apply H2; reflexivity.
Defined.

(** C9, the claim as stated fails: the group delete fails because the group
    is not empty, and the function still returns [true]. *)
Lemma reset_returns_true_when_delete_fails :
  deleteFailsOtherwise deleteTimesOut = true
  /\ (resetConsumerOffsetToEarliest deleteTimesOut).1 = true.
Proof. split; reflexivity. Qed.

(** ** Deciding whether to rebuild *)

Lemma scanAll_healthy (replies : list (result (list string))) (n : nat) :
  Forall (fun r => r <> Throws) replies ->
  scanAll replies n = Ok (n + playerKeyCount replies =? 0)%nat.
Proof.
  intros H. revert n.
  induction H as [|r rest Hr _ IH]; intros n; simpl.
  - by rewrite Nat.add_0_r.
  - destruct r as [keys|]; [|done]. rewrite IH. by rewrite Nat.add_assoc.
Qed.

Lemma scanUntilPlayer_healthy (replies : list (result (list string))) (n : nat) :
  Forall (fun r => r <> Throws) replies ->
  scanUntilPlayer replies n = Ok (n + playerKeyCount replies =? 0)%nat.
Proof.
  intros H. revert n.
  induction H as [|r rest Hr _ IH]; intros n; simpl.
  - by rewrite Nat.add_0_r.
  - destruct r as [keys|]; [|done].
    destruct (Nat.ltb_spec 0 (n + List.length (playerKeysOf keys))) as [Hpos|Hzero].
    + f_equal. symmetry. apply Nat.eqb_neq. lia.
    + rewrite IH. by rewrite Nat.add_assoc.
Qed.

Lemma playerKeysOf_none (keys : list string) :
  List.length (playerKeysOf keys) = 0%nat
  <-> forall key, key ∈ keys -> includes ":last_submission" key = true.
Proof.
  unfold playerKeysOf. induction keys as [|k keys IH].
  - split; [|done]. intros _ key Hin. by apply elem_of_nil in Hin.
  - rewrite filter_cons.
    destruct (includes ":last_submission" k) eqn:Hk; simpl.
    + rewrite IH. split.
      * intros Hall key Hin. apply elem_of_cons in Hin as [->|Hin]; auto.
      * intros Hall key Hin. apply Hall. apply elem_of_cons; by right.
    + split; [done|]. intros Hall.
      rewrite (Hall k) in Hk; [done|]. apply elem_of_cons; by left.
Qed.

Lemma playerKeyCount_zero (replies : list (result (list string))) :
  playerKeyCount replies = 0%nat
  <-> forall keys key, Ok keys ∈ replies -> key ∈ keys ->
                       includes ":last_submission" key = true.
Proof.
  induction replies as [|r rest IH]; simpl.
  - split; [|done]. intros _ keys key Hin. by apply elem_of_nil in Hin.
  - destruct r as [keys0|].
    + rewrite Nat.eq_add_0, IH, playerKeysOf_none. split.
      * intros [Hhere Hrest] keys key Hin Hkey.
        apply elem_of_cons in Hin as [[= ->]|Hin]; [by apply Hhere|by eapply Hrest].
      * intros Hall. split.
        -- intros key Hkey. apply (Hall keys0); [apply elem_of_cons; by left|done].
        -- intros keys key Hin. apply Hall. apply elem_of_cons; by right.
    + rewrite IH. split; intros Hall keys key Hin.
      * apply elem_of_cons in Hin as [[=]|Hin]. by apply Hall.
      * apply Hall. apply elem_of_cons; by right.
Qed.

Lemma allLeaderboardsEmpty_healthy (c : redisClient) (gameModes : list Z) :
  (forall key, zcardReply c key <> Throws) ->
  exists b, allLeaderboardsEmpty c gameModes = Ok b
            /\ (b = false <-> someLeaderboardHasData c gameModes).
Proof.
  intros Hz. unfold someLeaderboardHasData.
  induction gameModes as [|id rest (b & Hb & IH)]; simpl.
  - exists true. split; [done|]. split; [done|].
    intros (id & count & Hin & _). by apply elem_of_nil in Hin.
  - destruct (zcardReply c (globalKey (JNum id))) as [count|] eqn:Hc;
      [|by destruct (Hz (globalKey (JNum id)))].
    destruct (Nat.ltb_spec 0 count) as [Hpos|Hzero].
    + exists false. split; [done|]. split; [|done]. intros _.
      exists id, count. split; [apply elem_of_cons; by left|done].
    + exists b. split; [done|]. rewrite IH. split.
      * intros (id' & count' & Hin & Hc' & Hpos). exists id', count'.
        split; [apply elem_of_cons; by right|done].
      * intros (id' & count' & Hin & Hc' & Hpos).
        apply elem_of_cons in Hin as [->|Hin]; [|by exists id', count'].
        rewrite Hc in Hc'. injection Hc' as ->. lia.
Qed.



Example needsRebuild_leaves_at_first_player :
  needsRebuild unseededClient = false.
Proof. reflexivity. Qed.

(** ** Replay publishes nothing *)

Lemma published_app (a b : list effect) :
  published (a ++ b) = published a ++ published b.
Proof. unfold published. apply omap_app. Qed.

Lemma published_logs (o : list effect) :
  Forall (fun x => exists l, x = Log l) o -> published o = [].
Proof.
  induction 1 as [|x o [l ->] _ IH]; [done|]. exact IH.
Qed.

Lemma published_weekly (d : date) (g p sc : jsval) (s : store) :
  published (updateWeeklyLeaderboard d g p sc s).2 = [].
Proof.
  unfold updateWeeklyLeaderboard.
  destruct (Number sc) as [n|]; [|done]. by destruct (n =? 0).
Qed.

Lemma published_parse (messages : list message) :
  published (parseMessages messages).2 = [].
Proof. apply published_logs, parseMessages_logs. Qed.

Lemma hot_group_silent (d : date) (initialRanks : gmap string (option Z))
    (key : string) (es : list event) (r : run) :
  published (out (fold_left (processHotEvent d true initialRanks key) es r))
  = published (out r).
Proof.
  revert r. induction es as [|e es IH]; intros r; [done|].
  simpl. rewrite IH. unfold processHotEvent; simpl.
  rewrite !published_app, published_weekly. simpl. by rewrite app_nil_r.
Qed.

Lemma hot_groups_silent (d : date) (initialRanks : gmap string (option Z))
    (groups : list (string * list event)) (r : run) :
  published (out (fold_left (processGroup d true initialRanks) groups r))
  = published (out r).
Proof.
  revert r. induction groups as [|g groups IH]; intros r; [done|].
  simpl. rewrite IH. unfold processGroup.
  destruct (1 <? List.length g.2)%nat; [apply hot_group_silent|done].
Qed.

Lemma queueStandalone_silent (d : date) (es : list event)
    (acc : store * list cmd * list effect) :
  published (fold_left (queueStandalone d) es acc).2 = published acc.2.
Proof.
  revert acc. induction es as [|e es IH]; intros acc; [done|].
  simpl. rewrite IH. destruct acc as [[s pipeline] o]. unfold queueStandalone.
  pose proof (published_weekly d (gameMode e) (playerId e) (score e) s) as Hw.
  destruct (updateWeeklyLeaderboard d (gameMode e) (playerId e) (score e) s)
    as [s' weekly]. simpl in *.
  by rewrite published_app, Hw, app_nil_r.
Qed.

Lemma standalone_silent (d : date) (initialRanks : gmap string (option Z))
    (es : list event) (r : run) :
  published (out (processStandalone d true initialRanks es r)) = published (out r).
Proof.
  unfold processStandalone. destruct es as [|e es]; [done|].
  pose proof (queueStandalone_silent d (e :: es) (redis r, [], out r)) as Hq.
  destruct (fold_left (queueStandalone d) (e :: es) (redis r, [], out r))
    as [[s1 pipeline] o1]. simpl in *.
  by rewrite app_nil_r.
Qed.



(** The same batch, handled while tailing, publishes. *)
Example tailing_publishes :
  List.length
    (published
       (eachBatch saturdayNoon tailing emptyStore
          [Json (mkEvent "p1" 1 (JNum 5)); Json (mkEvent "p2" 1 (JNum 7));
           Garbled; Json (mkEvent "p1" 1 (JNum 5))]).2) = 2%nat.
Proof. vm_compute. reflexivity. Qed.

(** ** Keys *)

Lemma colon_split (a b x y : string) :
  colonFree a = true -> colonFree b = true ->
  a +:+ String ":" x = b +:+ String ":" y -> a = b /\ x = y.
Proof.
  revert b. induction a as [|c a IH]; intros [|c' b] Ha Hb Heq; simpl in *.
  - by injection Heq as ->.
  - injection Heq as <- _. done.
  - injection Heq as -> _. done.
  - injection Heq as -> Heq.
    apply andb_true_iff in Ha as [_ Ha]. apply andb_true_iff in Hb as [_ Hb].
    destruct (IH b Ha Hb Heq) as [-> ->]. done.
Qed.

Lemma colonFree_pretty_N_go (x : N) (s : string) :
  colonFree s = true -> colonFree (pretty_N_go x s) = true.
Proof.
  revert s. induction (N.lt_wf_0 x) as [x _ IH]; intros s Hs.
  destruct (decide (0 < x)%N) as [Hpos|Hzero].
  - rewrite pretty_N_go_step by done. apply IH.
    + apply N.div_lt; [done|lia].
    + simpl. rewrite Hs, andb_true_r.
      unfold pretty_N_char.
      by repeat (case_match; try done).
  - assert (x = 0%N) as -> by lia. by rewrite pretty_N_go_0.
Qed.

Lemma colonFree_pretty_N (x : N) : colonFree (pretty x) = true.
Proof.
  unfold pretty, pretty_N. case_decide; [done|]. by apply colonFree_pretty_N_go.
Qed.

Lemma colonFree_pretty_Z (z : Z) : colonFree (pretty z) = true.
Proof.
  destruct z as [|p|p]; unfold pretty, pretty_Z; [done| |].
  - apply colonFree_pretty_N.
  - change (colonFree (String "-" (pretty (N.pos p))) = true).
    simpl. apply colonFree_pretty_N.
Qed.

Lemma globalKey_inj (g g' : Z) : globalKey (JNum g) = globalKey (JNum g') -> g = g'.
Proof.
  unfold globalKey; simpl. intros H. apply String.app_inj in H.
  apply colon_split in H as [H _]; auto using colonFree_pretty_Z.
  by apply pretty_Z_inj in H.
Qed.

Lemma dailyKey_ne_globalKey (g g' : Z) (today : string) :
  dailyKey (JNum g) today <> globalKey (JNum g').
Proof.
  unfold dailyKey, globalKey; simpl. intros H. apply String.app_inj in H.
  apply colon_split in H as [_ H]; auto using colonFree_pretty_Z. discriminate.
Qed.

Lemma weeklyKey_ne_globalKey (g g' : Z) (weekId : string) :
  weeklyKey (JNum g) weekId <> globalKey (JNum g').
Proof.
  unfold weeklyKey, globalKey; simpl. intros H. apply String.app_inj in H.
  apply colon_split in H as [_ H]; auto using colonFree_pretty_Z. discriminate.
Qed.

(** For one and the same game mode, whatever its text. *)
Lemma weeklyKey_ne_globalKey_same (g : jsval) (weekId : string) :
  weeklyKey g weekId <> globalKey g.
Proof.
  unfold weeklyKey, globalKey. intros H. do 2 apply String.app_inj in H. discriminate.
Qed.

Lemma weeklyKey_ne_dailyKey_same (g : jsval) (weekId today : string) :
  weeklyKey g weekId <> dailyKey g today.
Proof.
  unfold weeklyKey, dailyKey. intros H. do 2 apply String.app_inj in H. discriminate.
Qed.

Lemma dailyKey_ne_globalKey_same (g : jsval) (today : string) :
  dailyKey g today <> globalKey g.
Proof.
  unfold dailyKey, globalKey. intros H. do 2 apply String.app_inj in H. discriminate.
Qed.

(** ** Grouping loses and repeats no event *)

Lemma groupPush_perm (key : string) (e : event) (groups : list (string * list event)) :
  flat_map snd (groupPush key e groups) ≡ₚ e :: flat_map snd groups.
Proof.
  induction groups as [|[k es] groups IH]; simpl; [done|].
  destruct (decide (k = key)); simpl.
  - rewrite <- app_assoc. simpl.
    by rewrite <- Permutation_middle.
  - rewrite IH. by rewrite <- Permutation_middle.
Qed.

Lemma eventGroups_perm_from (events : list event) (groups : list (string * list event)) :
  flat_map snd (fold_left (fun groups e => groupPush (keyOf e) e groups) events groups)
  ≡ₚ flat_map snd groups ++ events.
Proof.
  revert groups. induction events as [|e events IH]; intros groups; simpl.
  - by rewrite app_nil_r.
  - rewrite IH, groupPush_perm. by rewrite <- Permutation_middle.
Qed.

Lemma eventGroups_perm (events : list event) :
  flat_map snd (eventGroupsOf events) ≡ₚ events.
Proof. unfold eventGroupsOf. by rewrite eventGroups_perm_from. Qed.

Lemma hot_and_standalone_perm (groups : list (string * list event)) :
  hotEventsOf groups ++ standaloneEventsOf groups ≡ₚ flat_map snd groups.
Proof.
  unfold hotEventsOf, standaloneEventsOf.
  induction groups as [|[k es] groups IH]; simpl; [done|].
  destruct es as [|e1 [|e2 es]]; simpl.
  - exact IH.
  - rewrite <- Permutation_middle. by rewrite IH.
  - do 2 f_equiv. rewrite <- app_assoc. by rewrite IH.
Qed.

(** ** C1: the global score is the sum of the scores *)

Lemma scoreSum_app (p : string) (g : Z) (a b : list event) :
  scoreSum p g (a ++ b) = scoreSum p g a + scoreSum p g b.
Proof. induction a as [|e a IH]; simpl; [done|]. rewrite IH. lia. Qed.

Lemma scoreSum_perm (p : string) (g : Z) (a b : list event) :
  a ≡ₚ b -> scoreSum p g a = scoreSum p g b.
Proof. induction 1; simpl; lia. Qed.

Lemma scoreOf_execCmd (s : store) (c : cmd) (k m : string) :
  scoreOf (execCmd s c) k m = scoreOf s k m + zdelta k m c.
Proof.
  unfold scoreOf at 1. rewrite zscore_execCmd.
  destruct c as [key fields|key field incr|key incr member|key seconds]; simpl;
    try (fold (scoreOf s k m); lia).
  destruct (redisNumber incr) as [n|]; simpl.
  - case_bool_decide as H.
    + by rewrite decide_True.
    + rewrite decide_False by done. fold (scoreOf s k m). lia.
  - fold (scoreOf s k m). case_bool_decide; lia.
Qed.

Lemma scoreOf_exec (s : store) (pipeline : list cmd) (k m : string) :
  scoreOf (exec s pipeline) k m = scoreOf s k m + zdeltas k m pipeline.
Proof.
  unfold exec. revert s. induction pipeline as [|c pipeline IH]; intros s; simpl.
  - lia.
  - rewrite IH, scoreOf_execCmd. lia.
Qed.

Lemma zdeltas_app (k m : string) (a b : list cmd) :
  zdeltas k m (a ++ b) = zdeltas k m a + zdeltas k m b.
Proof. induction a as [|c a IH]; simpl; [done|]. rewrite IH. lia. Qed.

Lemma zdeltas_eventCmds (d : date) (playerExists : bool) (e : event) (p : string) (g : Z) :
  isScoreEvent e = true ->
  zdeltas (globalKey (JNum g)) p (eventCmds d playerExists e) = scoreSum p g [e].
Proof.
  unfold isScoreEvent. destruct e as [pid un gm sc]; cbn [playerId gameMode score].
  destruct pid as [| | | |p']; try discriminate. destruct gm as [| | |g'|]; try discriminate.
  destruct sc as [| | |n|]; try discriminate. intros _.
  unfold eventCmds, zdeltas, scoreSum.
  cbn [foldr zdelta playerId gameMode score username redisNumber default redisArg toString].
  rewrite (bool_decide_eq_false_2 (dailyKey _ _ = _ /\ _))
    by (intros [H _]; exact (dailyKey_ne_globalKey _ _ _ H)).
  replace (zdelta (globalKey (JNum g)) p
             (if playerExists
              then HSet (playerKey (JStr p')) [("username", hvalOf un)]
              else HSet (playerKey (JStr p'))
                     [("username", hvalOf un); ("total_score", HInt 0);
                      ("games_played", HInt 0);
                      ("created_at", hvalOfString (toISOString d))]))
    with 0 by (by destruct playerExists).
  unfold id.
  assert (Hiff : (globalKey (JNum g') = globalKey (JNum g) /\ p' = p)
                 <-> (JStr p' = JStr p /\ JNum g' = JNum g)).
  { split.
    - intros [Hk ->]. apply globalKey_inj in Hk as ->. by split.
    - intros [Hp Hg]. injection Hp as ->. injection Hg as ->. by split. }
  rewrite (bool_decide_ext _ _ Hiff).
  destruct (bool_decide (JStr p' = JStr p /\ JNum g' = JNum g)); ring.
Qed.

Lemma scoreOf_weekly (d : date) (e : event) (s : store) (p : string) (g : Z) :
  isScoreEvent e = true ->
  scoreOf (updateWeeklyLeaderboard d (gameMode e) (playerId e) (score e) s).1
          (globalKey (JNum g)) p
  = scoreOf s (globalKey (JNum g)) p.
Proof.
  unfold isScoreEvent, updateWeeklyLeaderboard.
  destruct (playerId e); try discriminate.
  destruct (gameMode e) as [| | |g'|]; try discriminate.
  intros _. destruct (Number (score e)) as [n|]; [|reflexivity].
  destruct (n =? 0); [reflexivity|]. cbn [fst].
  rewrite !scoreOf_execCmd.
  cbn [zdelta].
  rewrite bool_decide_eq_false_2
    by (intros [H _]; exact (weeklyKey_ne_globalKey _ _ _ H)).
  ring.
Qed.

Lemma scoreOf_applyEvent (d : date) (s : store) (e : event) (p : string) (g : Z) :
  isScoreEvent e = true ->
  scoreOf (applyEvent d s e) (globalKey (JNum g)) p
  = scoreOf s (globalKey (JNum g)) p + scoreSum p g [e].
Proof.
  intros He. unfold applyEvent.
  by rewrite scoreOf_exec, scoreOf_weekly, zdeltas_eventCmds.
Qed.

Lemma redis_processHotEvent (d : date) (reb : bool) (initialRanks : gmap string (option Z))
    (key : string) (r : run) (e : event) :
  redis (processHotEvent d reb initialRanks key r e) = applyEvent d (redis r) e.
Proof. reflexivity. Qed.

Lemma redis_hot_group (d : date) (reb : bool) (initialRanks : gmap string (option Z))
    (key : string) (es : list event) (r : run) :
  redis (fold_left (processHotEvent d reb initialRanks key) es r)
  = fold_left (applyEvent d) es (redis r).
Proof.
  revert r. induction es as [|e es IH]; intros r; [done|]. simpl. by rewrite IH.
Qed.

Lemma scoreOf_applyEvents (d : date) (es : list event) (s : store) (p : string) (g : Z) :
  Forall (fun e => isScoreEvent e = true) es ->
  scoreOf (fold_left (applyEvent d) es s) (globalKey (JNum g)) p
  = scoreOf s (globalKey (JNum g)) p + scoreSum p g es.
Proof.
  intros H. revert s. induction H as [|e es He _ IH]; intros s; simpl; [lia|].
  rewrite IH, scoreOf_applyEvent by done. simpl. lia.
Qed.

Lemma scoreOf_hot_groups (d : date) (reb : bool) (initialRanks : gmap string (option Z))
    (groups : list (string * list event)) (r : run) (p : string) (g : Z) :
  Forall (fun e => isScoreEvent e = true) (hotEventsOf groups) ->
  scoreOf (redis (fold_left (processGroup d reb initialRanks) groups r))
          (globalKey (JNum g)) p
  = scoreOf (redis r) (globalKey (JNum g)) p + scoreSum p g (hotEventsOf groups).
Proof.
  unfold hotEventsOf. revert r.
  induction groups as [|[k es] groups IH]; intros r H; simpl in *; [lia|].
  apply Forall_app in H as [Hes Hrest]. rewrite IH by done.
  unfold processGroup; simpl. rewrite scoreSum_app.
  destruct (1 <? List.length es)%nat; simpl; [|lia].
  rewrite redis_hot_group, scoreOf_applyEvents by done. lia.
Qed.

Lemma queueStandalone_step (d : date) (s : store) (pipeline : list cmd)
    (o : list effect) (e : event) :
  queueStandalone d (s, pipeline, o) e
  = ((updateWeeklyLeaderboard d (gameMode e) (playerId e) (score e) s).1,
     pipeline ++ eventCmds d (exists_ s (playerKey (playerId e))) e,
     o ++ (updateWeeklyLeaderboard d (gameMode e) (playerId e) (score e) s).2).
Proof.
  unfold queueStandalone.
  by destruct (updateWeeklyLeaderboard d (gameMode e) (playerId e) (score e) s).
Qed.

Lemma scoreOf_queueStandalone (d : date) (es : list event)
    (s : store) (pipeline : list cmd) (o : list effect) (p : string) (g : Z) :
  Forall (fun e => isScoreEvent e = true) es ->
  let acc := fold_left (queueStandalone d) es (s, pipeline, o) in
  scoreOf acc.1.1 (globalKey (JNum g)) p = scoreOf s (globalKey (JNum g)) p
  /\ zdeltas (globalKey (JNum g)) p acc.1.2
     = zdeltas (globalKey (JNum g)) p pipeline + scoreSum p g es.
Proof.
  intros H. revert s pipeline o.
  induction H as [|e es He _ IH]; intros s pipeline o; cbn [fold_left];
    [simpl; split; lia|].
  rewrite queueStandalone_step.
  match goal with |- context [fold_left _ es (?s1, ?p1, ?o1)] =>
    destruct (IH s1 p1 o1) as [IH1 IH2] end.
  cbv zeta. split.
  - by rewrite IH1, scoreOf_weekly.
  - rewrite IH2, zdeltas_app, zdeltas_eventCmds by done. simpl. lia.
Qed.

Lemma scoreOf_standalone (d : date) (reb : bool) (initialRanks : gmap string (option Z))
    (es : list event) (r : run) (p : string) (g : Z) :
  Forall (fun e => isScoreEvent e = true) es ->
  scoreOf (redis (processStandalone d reb initialRanks es r)) (globalKey (JNum g)) p
  = scoreOf (redis r) (globalKey (JNum g)) p + scoreSum p g es.
Proof.
  intros H. unfold processStandalone.
  destruct es as [|e es]; [simpl; lia|].
  destruct (scoreOf_queueStandalone d (e :: es) (redis r) [] (out r) p g H) as [H1 H2].
  destruct (fold_left (queueStandalone d) (e :: es) (redis r, [], out r))
    as [[s1 pipeline] o1]. simpl in *.
  rewrite scoreOf_exec, H1, H2. lia.
Qed.

Lemma scoreOf_processEvents (d : date) (reb : bool) (s : store) (events : list event)
    (p : string) (g : Z) :
  Forall (fun e => isScoreEvent e = true) events ->
  scoreOf (redis (processEvents d reb s events)) (globalKey (JNum g)) p
  = scoreOf s (globalKey (JNum g)) p + scoreSum p g events.
Proof.
  intros H. unfold processEvents. cbn [redis].
  pose proof (hot_and_standalone_perm (eventGroupsOf events)) as Hsplit.
  rewrite eventGroups_perm in Hsplit.
  assert (Hall : Forall (fun e => isScoreEvent e = true)
                   (hotEventsOf (eventGroupsOf events)
                    ++ standaloneEventsOf (eventGroupsOf events)))
    by (by rewrite Hsplit).
  apply Forall_app in Hall as [Hhot Hsa].
  rewrite scoreOf_standalone, scoreOf_hot_groups by done. simpl.
  rewrite <- (scoreSum_perm p g _ _ Hsplit), scoreSum_app. lia.
Qed.

Lemma scoreOf_eachBatch (d : date) (eng : engine) (s : store) (messages : list message)
    (p : string) (g : Z) :
  Forall (fun e => isScoreEvent e = true) (acceptedOf messages) ->
  scoreOf (eachBatch d eng s messages).1.2 (globalKey (JNum g)) p
  = scoreOf s (globalKey (JNum g)) p + scoreSum p g (acceptedOf messages).
Proof.
  unfold eachBatch, acceptedOf.
  destruct (parseMessages messages) as [events parseOut]. simpl.
  intros H. destruct events as [|e events].
  - destruct (isRebuilding eng); [|simpl; lia].
    destruct (EMPTY_BATCH_THRESHOLD <=? consecutiveEmptyBatches eng + 1); simpl; lia.
  - cbn [fst snd]. by apply scoreOf_processEvents.
Qed.



Example global_score_sample :
  scoreSum "p1" 1 (acceptedOfAll sampleBatches) = 110
  /\ zscore (eachBatches rebuilding emptyStore sampleBatches).1.2 "leaderboard:1:global" "p1"
     = Some 110.
Proof. split; vm_compute; reflexivity. Qed.

(** ** The player hash under one command *)

Lemma hget_execCmd (s : store) (c : cmd) (k f : string) :
  hget (execCmd s c) k f =
  match c with
  | HSet key fields =>
      if decide (key = k) then hsetFields fields (hgetall s k) !! f else hget s k f
  | HIncrBy key field incr =>
      match redisNumber incr with
      | None => hget s k f
      | Some n =>
          if decide (key = k /\ field = f)
          then match hget s k f with
               | Some (HStr x) => Some (HStr x)
               | Some (HInt z) => Some (HInt (z + n))
               | None => Some (HInt n)
               end
          else hget s k f
      end
  | _ => hget s k f
  end.
Proof.
  destruct c as [key fields|key field incr|key incr member|key seconds]; simpl.
  - unfold hget, hgetall; simpl. destruct (decide (key = k)) as [->|Hk].
    + by rewrite lookup_insert_eq.
    + by rewrite lookup_insert_ne.
  - destruct (redisNumber incr) as [n|]; [|reflexivity].
    destruct (decide (key = k /\ field = f)) as [[-> ->]|Hne].
    + destruct (hget s k f) as [[z|x]|] eqn:Hf; try done;
        unfold hget, hgetall; simpl;
        rewrite lookup_insert_eq; simpl; by rewrite lookup_insert_eq.
    + destruct (hget s key field) as [[z|x]|] eqn:Hf; try done;
        unfold hget, hgetall; simpl;
        (destruct (decide (key = k)) as [->|Hk];
         [rewrite lookup_insert_eq; simpl; rewrite lookup_insert_ne; [done|];
          intros ->; by destruct Hne
         |by rewrite lookup_insert_ne]).
  - destruct (redisNumber incr); reflexivity.
  - destruct (exists_ s key); reflexivity.
Qed.

Lemma zsets_execCmd_other (s : store) (c : cmd) (k : string) :
  (forall incr member, c <> ZIncrBy k incr member) ->
  zsets (execCmd s c) !! k = zsets s !! k.
Proof.
  intros Hc.
  destruct c as [key fields|key field incr|key incr member|key seconds]; simpl.
  - reflexivity.
  - destruct (redisNumber incr); [|reflexivity].
    destruct (hget s key field) as [[old|old]|]; reflexivity.
  - destruct (redisNumber incr); [|reflexivity]. simpl.
    apply lookup_insert_ne. intros ->. by destruct (Hc incr member).
  - destruct (exists_ s key); reflexivity.
Qed.

Lemma not_exists_no_hash (s : store) (k f : string) :
  exists_ s k = false -> hget s k f = None.
Proof.
  unfold exists_, hget, hgetall. intros H.
  apply orb_false_iff in H as [H _]. apply bool_decide_eq_false in H.
  destruct (hashes s !! k); [destruct H; eauto|done].
Qed.

(** ** An event with score 0 *)

Lemma single_event_batch (d : date) (eng : engine) (s : store) (e : event) :
  invalidEvent e = false ->
  (eachBatch d eng s [Json e]).1.2 = applyEvent d s e
  /\ forall x, x ∈ (updateWeeklyLeaderboard d (gameMode e) (playerId e) (score e) s).2 ->
               x ∈ (eachBatch d eng s [Json e]).2.
Proof.
  intros Hinv. unfold eachBatch. cbn [parseMessages]. rewrite Hinv.
  unfold processEvents, eventGroupsOf. cbn [fold_left groupPush].
  unfold standaloneEventsOf, processGroup. cbn [flat_map snd List.length Nat.ltb Nat.leb app].
  unfold processStandalone. cbn [fold_left]. rewrite queueStandalone_step.
  cbn [fst snd redis out app]. split; [reflexivity|].
  intros x Hx. rewrite !elem_of_app. by do 2 left.
Qed.

Lemma ZIncrBy_key (k k' : string) (i i' : jsval) (m m' : string) :
  ZIncrBy k i m = ZIncrBy k' i' m' -> k = k'.
Proof. by intros [= ? ? ?]. Qed.

Lemma applyEvent_zero (d : date) (s : store) (e : event) :
  score e = JNum 0 ->
  applyEvent d s e = exec s (eventCmds d (exists_ s (playerKey (playerId e))) e).
Proof. intros H. unfold applyEvent, updateWeeklyLeaderboard. by rewrite H. Qed.

(** C10: an event whose score is the number 0 and whose [playerId] is
    truthy passes validation and is applied: [games_played] grows by 1, the
    member is in the global and in the daily sorted set with its score
    unchanged (0 when it was absent), and the weekly step is skipped with its
    warning, the weekly sorted set and the expiry of its key staying as they
    were.  The store the batch leaves is the one the hot path leaves for the
    same event. *)
Theorem zero_score_counts_a_game_but_skips_weekly
    (d : date) (eng : engine) (s : store) (e : event) :
  truthy (playerId e) = true ->
  score e = JNum 0 ->
  (forall x, hget s (playerKey (playerId e)) "games_played" <> Some (HStr x)) ->
  let s' := (eachBatch d eng s [Json e]).1.2 in
  let m := redisArg (playerId e) in
  let daily := dailyKey (gameMode e) (beforeT (toISOString d)) in
  let weekly := weeklyKey (gameMode e) (getWeekIdentifier d) in
  acceptedOf [Json e] = [e]
  /\ s' = applyEvent d s e
  /\ hget s' (playerKey (playerId e)) "games_played"
     = Some (HInt (gamesPlayed s (playerId e) + 1))
  /\ zscore s' (globalKey (gameMode e)) m = Some (scoreOf s (globalKey (gameMode e)) m)
  /\ zscore s' daily m = Some (scoreOf s daily m)
  /\ zsets s' !! weekly = zsets s !! weekly
  /\ ttl s' !! weekly = ttl s !! weekly
  /\ Log (InvalidWeeklyScore (JNum 0) (gameMode e) (playerId e))
       ∈ (eachBatch d eng s [Json e]).2.
Proof.
  intros Hp Hsc Hgp s' m daily weekly.
  assert (Hinv : invalidEvent e = false).
  { unfold invalidEvent. rewrite Hp, Hsc. reflexivity. }
  destruct (single_event_batch d eng s e Hinv) as [Hs' Hout].
  split. { unfold acceptedOf. cbn [parseMessages]. by rewrite Hinv. }
  split; [exact Hs'|].
  subst s'. rewrite Hs', applyEvent_zero by done.
  unfold exec, eventCmds. cbn [fold_left]. rewrite Hsc.
  split.
  { rewrite !hget_execCmd. cbn [redisNumber].
    rewrite (decide_True (P := _ /\ _)) by done.
    rewrite (decide_False (P := _ /\ _)) by (intros [_ ?]; discriminate).
    unfold gamesPlayed.
    destruct (exists_ s (playerKey (playerId e))) eqn:Hex.
    - rewrite decide_True by done. cbn [hsetFields fold_left fst snd].
      rewrite lookup_insert_ne by discriminate. fold (hget s (playerKey (playerId e)) "games_played").
      destruct (hget s (playerKey (playerId e)) "games_played") as [[z|x]|] eqn:Hf; try done.
      by destruct (Hgp x).
    - rewrite (not_exists_no_hash _ _ _ Hex).
      rewrite decide_True by done. cbn [hsetFields fold_left fst snd].
      rewrite lookup_insert_ne by discriminate.
      rewrite lookup_insert_eq. reflexivity. }
  assert (Hdg : daily <> globalKey (gameMode e)) by apply dailyKey_ne_globalKey_same.
  assert (Hwg : weekly <> globalKey (gameMode e)) by apply weeklyKey_ne_globalKey_same.
  assert (Hwd : weekly <> daily) by apply weeklyKey_ne_dailyKey_same.
  fold daily. fold m.
  split.
  { destruct (exists_ s (playerKey (playerId e)));
      rewrite !zscore_execCmd; cbn [redisNumber];
      rewrite (decide_False (P := daily = _ /\ _)) by (intros [? _]; done);
      rewrite decide_True by done; by rewrite Z.add_0_r. }
  split.
  { destruct (exists_ s (playerKey (playerId e)));
      rewrite !zscore_execCmd; cbn [redisNumber];
      rewrite decide_True by done; unfold scoreOf at 1;
      rewrite !zscore_execCmd; cbn [redisNumber];
      rewrite decide_False by (intros [? _]; done);
      fold (scoreOf s daily m); by rewrite Z.add_0_r. }
  split.
  { destruct (exists_ s (playerKey (playerId e)));
      rewrite !zsets_execCmd_other; try done;
      intros incr mem Heq; apply ZIncrBy_key in Heq; symmetry in Heq;
      first [by apply Hwg in Heq | by apply Hwd in Heq]. }
  split.
  { destruct (exists_ s (playerKey (playerId e)));
      rewrite !ttl_execCmd;
      rewrite (bool_decide_eq_false_2 (daily = weekly)) by done;
      by rewrite andb_false_r. }
  apply Hout. rewrite Hsc. unfold updateWeeklyLeaderboard, Number.
  cbn [Z.eqb snd]. constructor.
Qed.

Lemma zero_score_counts_a_game_but_skips_weekly_witness :
  let e := mkEvent "p1" 1 (JNum 0) in
  let s' := (eachBatch saturdayNoon tailing emptyStore [Json e]).1.2 in
  hget s' "player:p1" "games_played" = Some (HInt 1)
  /\ zscore s' "leaderboard:1:global" "p1" = Some 0
  /\ zsets s' !! "leaderboard:1:weekly:2023-W02" = None.
Proof.
  intros e s'.
  destruct (zero_score_counts_a_game_but_skips_weekly saturdayNoon tailing emptyStore e)
    as (_ & _ & Hg & Hz & _ & Hw & _).
  - reflexivity.
  - reflexivity.
  - intros x. vm_compute. discriminate.
  - split; [exact Hg|]. split; [exact Hz|]. exact Hw.
Defined.

(** ** Hot groups: ranks before and after each event *)

Lemma zscore_execCmd_keeps (s : store) (c : cmd) (k m : string) :
  is_Some (zscore s k m) -> is_Some (zscore (execCmd s c) k m).
Proof.
  intros H. rewrite zscore_execCmd.
  destruct c as [key fields|key field incr|key incr member|key seconds]; try exact H.
  destruct (redisNumber incr); [|exact H]. case_decide; [eauto|exact H].
Qed.

Lemma zscore_after_eventCmds (d : date) (playerExists : bool) (e : event) (s : store) :
  is_Some (redisNumber (score e)) ->
  is_Some (zscore (exec s (eventCmds d playerExists e))
                  (globalKey (gameMode e)) (redisArg (playerId e))).
Proof.
  intros [n Hn]. unfold exec, eventCmds. cbn [fold_left].
  do 4 apply zscore_execCmd_keeps.
  rewrite zscore_execCmd, Hn. rewrite decide_True by (split; reflexivity). eauto.
Qed.

Lemma getPlayerRank_is_Some (s : store) (g p : jsval) :
  is_Some (zscore s (globalKey g) (redisArg p)) -> is_Some (getPlayerRank s g p).
Proof.
  intros [sc Hsc]. unfold getPlayerRank, zrevrank. rewrite Hsc. eauto.
Qed.

Lemma getPlayerRank_after_applyEvent (d : date) (s : store) (e : event) :
  is_Some (redisNumber (score e)) ->
  is_Some (getPlayerRank (applyEvent d s e) (gameMode e) (playerId e)).
Proof.
  intros H. apply getPlayerRank_is_Some. unfold applyEvent.
  by apply zscore_after_eventCmds.
Qed.

Lemma published_notify (e : event) (previousRank : option Z) (rank sc : Z) :
  published (notify e previousRank (Some (rank, sc)))
  = if bool_decide (Some rank ≠ previousRank)
    then [RankChange (gameMode e) (playerId e) rank previousRank sc] else [].
Proof.
  unfold notify. case_bool_decide; [|reflexivity].
  destruct (_ || _); reflexivity.
Qed.

Lemma hot_group_from (d : date) (initialRanks : gmap string (option Z)) (key : string)
    (p g : jsval) (s0 : store) (todo done : list event) (r : run) :
  Forall (fun e => playerId e = p /\ gameMode e = g /\ is_Some (redisNumber (score e))) todo ->
  hotInvariant d s0 key p g done r ->
  let r' := fold_left (processHotEvent d false initialRanks key) todo r in
  hotInvariant d s0 key p g (done ++ todo) r'
  /\ published (out r')
     = published (out r)
       ++ flat_map (fun c => expectedChange d (default None (initialRanks !! key)) s0 p g c.1 c.2)
                   (cutsFrom done todo).
Proof.
  intros Htodo. revert done r.
  induction Htodo as [|e todo (Hp & Hg & Hn) _ IH]; intros done r Hinv; cbn [fold_left cutsFrom flat_map].
  - rewrite !app_nil_r. by split.
  - destruct Hinv as [Hredis Hcur].
    pose proof (getPlayerRank_after_applyEvent d (redis r) e Hn) as [[rank sc] Hnew].
    rewrite Hg, Hp in Hnew.
    assert (Hinv' : hotInvariant d s0 key p g (done ++ [e])
                      (processHotEvent d false initialRanks key r e)).
    { split.
      - rewrite fold_left_app. cbn [fold_left]. by rewrite <- Hredis.
      - unfold processHotEvent. cbn [redis currentRanks]. rewrite Hg, Hp, Hnew.
        destruct done; cbn [app]; exists rank, sc;
          (split; [first [exact Hnew|reflexivity]|by rewrite lookup_insert_eq]). }
    destruct (IH (done ++ [e]) _ Hinv') as [IH1 IH2].
    rewrite <- app_assoc in IH1. cbn [app] in IH1. split; [exact IH1|].
    rewrite IH2. rewrite app_assoc. f_equal.
    unfold processHotEvent at 1. cbn [out]. rewrite Hg, Hp, Hnew.
    rewrite !published_app, published_weekly, published_notify. cbn [app fst snd].
    f_equal. unfold expectedChange. rewrite <- Hredis, Hnew.
    rewrite <- Hp at 1. rewrite <- Hg at 1.
    destruct done as [|e0 done]; cbn [fst snd].
    + by rewrite Hcur.
    + destruct Hcur as (rank0 & sc0 & Hr0 & Hc0). by rewrite Hc0, Hr0.
Qed.

Lemma groupOf_groupPush (k key : string) (e : event) (groups : list (string * list event)) :
  groupOf k (groupPush key e groups)
  = if decide (key = k) then groupOf k groups ++ [e] else groupOf k groups.
Proof.
  induction groups as [|[k0 es] groups IH]; cbn [groupPush groupOf].
  - destruct (decide (key = k)); reflexivity.
  - destruct (decide (k0 = key)) as [->|Hne]; cbn [groupOf].
    + destruct (decide (key = k)); reflexivity.
    + destruct (decide (k0 = k)) as [->|Hne'].
      * by rewrite decide_False by done.
      * exact IH.
Qed.

Lemma keys_groupPush (key : string) (e : event) (groups : list (string * list event)) :
  (groupPush key e groups).*1
  = if decide (key ∈ groups.*1) then groups.*1 else groups.*1 ++ [key].
Proof.
  induction groups as [|[k0 es] groups IH]; cbn [groupPush fmap list_fmap fst].
  - rewrite decide_False by apply not_elem_of_nil. reflexivity.
  - destruct (decide (k0 = key)) as [->|Hne]; cbn [fmap list_fmap fst].
    + rewrite decide_True by apply list_elem_of_here. reflexivity.
    + change (list_fmap _ _ fst (groupPush key e groups)) with ((groupPush key e groups).*1).
      rewrite IH.
      change (list_fmap _ _ fst groups) with (groups.*1).
      destruct (decide (key ∈ groups.*1)) as [Hin|Hnin].
      * rewrite decide_True by (by apply list_elem_of_further). reflexivity.
      * rewrite decide_False; [reflexivity|].
        intros Hin. apply elem_of_cons in Hin as [->|Hin]; [by destruct Hne|by destruct Hnin].
Qed.

Lemma eventGroups_from (events pre : list event) (groups : list (string * list event)) :
  NoDup (groups.*1) ->
  (forall k, groupOf k groups = filter (fun e => keyOf e = k) pre) ->
  let groups' := fold_left (fun groups e => groupPush (keyOf e) e groups) events groups in
  NoDup (groups'.*1)
  /\ forall k, groupOf k groups' = filter (fun e => keyOf e = k) (pre ++ events).
Proof.
  revert pre groups. induction events as [|e events IH]; intros pre groups Hnd Hg; cbn [fold_left].
  - rewrite app_nil_r. by split.
  - destruct (IH (pre ++ [e]) (groupPush (keyOf e) e groups)) as [IH1 IH2].
    + rewrite keys_groupPush. case_decide; [exact Hnd|].
      apply NoDup_app. split; [exact Hnd|]. split; [|apply NoDup_singleton].
      intros x Hx Hx'. apply list_elem_of_singleton in Hx' as ->. done.
    + intros k. rewrite groupOf_groupPush, filter_app, Hg.
      rewrite filter_cons, filter_nil. destruct (decide (keyOf e = k)); [reflexivity|].
      by rewrite app_nil_r.
    + split; [exact IH1|]. intros k. rewrite IH2. by rewrite <- app_assoc.
Qed.

Lemma groupOf_middle (key : string) (es : list event) (gs1 gs2 : list (string * list event)) :
  NoDup ((gs1 ++ (key, es) :: gs2).*1) ->
  (key ∉ gs1.*1) /\ groupOf key (gs1 ++ (key, es) :: gs2) = es.
Proof.
  rewrite fmap_app. cbn [fmap list_fmap fst]. intros Hnd.
  apply NoDup_app in Hnd as (_ & Hdisj & _).
  assert (Hnin : key ∉ gs1.*1).
  { intros Hin. apply (Hdisj key Hin). apply list_elem_of_here. }
  split; [exact Hnin|].
  induction gs1 as [|[k0 es0] gs1 IH]; cbn [app groupOf].
  - by rewrite decide_True.
  - cbn [fmap list_fmap fst] in Hnin, Hdisj.
    rewrite decide_False.
    + apply IH.
      * intros x Hx. apply Hdisj. by apply list_elem_of_further.
      * intros Hin. apply Hnin. by apply list_elem_of_further.
    + intros ->. apply Hnin. apply list_elem_of_here.
Qed.

Lemma eventGroups_group (events : list event) (key : string) (es : list event)
    (gs1 gs2 : list (string * list event)) :
  eventGroupsOf events = gs1 ++ (key, es) :: gs2 ->
  (key ∉ gs1.*1) /\ es = filter (fun e => keyOf e = key) events.
Proof.
  intros Heq.
  destruct (eventGroups_from events [] []) as [Hnd Hg].
  { apply NoDup_nil_2. }
  { intros k. reflexivity. }
  fold (eventGroupsOf events) in Hnd, Hg. rewrite Heq in Hnd, Hg.
  destruct (groupOf_middle key es gs1 gs2 Hnd) as [Hnin Hes].
  split; [exact Hnin|]. rewrite <- Hes. apply Hg.
Qed.

Lemma currentRanks_hot_group (d : date) (reb : bool) (initialRanks : gmap string (option Z))
    (key k : string) (es : list event) (r : run) :
  k <> key ->
  currentRanks (fold_left (processHotEvent d reb initialRanks key) es r) !! k
  = currentRanks r !! k.
Proof.
  intros Hne. revert r. induction es as [|e es IH]; intros r; cbn [fold_left]; [reflexivity|].
  rewrite IH. unfold processHotEvent. cbn [currentRanks].
  destruct (getPlayerRank _ _ _) as [[rank sc]|]; [|reflexivity].
  by apply lookup_insert_ne.
Qed.

Lemma currentRanks_hot_groups (d : date) (reb : bool) (initialRanks : gmap string (option Z))
    (k : string) (groups : list (string * list event)) (r : run) :
  k ∉ (groups.*1) ->
  currentRanks (fold_left (processGroup d reb initialRanks) groups r) !! k
  = currentRanks r !! k.
Proof.
  revert r. induction groups as [|[key es] groups IH]; intros r Hnin; cbn [fold_left];
    [reflexivity|].
  cbn [fmap list_fmap fst] in Hnin.
  rewrite IH by (intros Hin; apply Hnin; by apply list_elem_of_further).
  unfold processGroup. cbn [fst snd].
  destruct (1 <? List.length es)%nat; [|reflexivity].
  apply currentRanks_hot_group. intros ->. apply Hnin. apply list_elem_of_here.
Qed.

Lemma initialRanks_from (s : store) (events : list event) (m0 : gmap string (option Z))
    (k : string) :
  fold_left
    (fun (initialRanks : gmap string (option Z)) e =>
       match initialRanks !! keyOf e with
       | Some _ => initialRanks
       | None => <[keyOf e := snapshotOf s e]> initialRanks
       end) events m0 !! k
  = match m0 !! k with
    | Some v => Some v
    | None => snapshotOf s <$> head (filter (fun e => keyOf e = k) events)
    end.
Proof.
  revert m0. induction events as [|e events IH]; intros m0; cbn [fold_left].
  - by destruct (m0 !! k).
  - rewrite IH, filter_cons. destruct (decide (keyOf e = k)) as [<-|Hne].
    + destruct (m0 !! keyOf e) as [v|] eqn:Hm; [by rewrite Hm|].
      by rewrite lookup_insert_eq.
    + destruct (m0 !! keyOf e) as [v|] eqn:Hm; [reflexivity|].
      by rewrite lookup_insert_ne.
Qed.

Lemma initialRanksOf_lookup (s : store) (events : list event) (k : string) :
  initialRanksOf s events !! k
  = snapshotOf s <$> head (filter (fun e => keyOf e = k) events).
Proof.
  unfold initialRanksOf.
  change (fold_left _ events ∅ !! k)
    with (fold_left
            (fun (initialRanks : gmap string (option Z)) e =>
               match initialRanks !! keyOf e with
               | Some _ => initialRanks
               | None => <[keyOf e := snapshotOf s e]> initialRanks
               end) events ∅ !! k).
  rewrite initialRanks_from. by rewrite lookup_empty.
Qed.

Lemma getPlayerRank_positive (s : store) (g p : jsval) (rank sc : Z) :
  getPlayerRank s g p = Some (rank, sc) -> 1 <= rank.
Proof.
  unfold getPlayerRank, zrevrank.
  destruct (zscore s (globalKey g) (redisArg p)) as [sc0|]; [|discriminate].
  intros [= <- _]. lia.
Qed.

Lemma snapshotOf_rank (s : store) (e : event) :
  snapshotOf s e = fst <$> getPlayerRank s (gameMode e) (playerId e).
Proof.
  unfold snapshotOf.
  destruct (getPlayerRank s (gameMode e) (playerId e)) as [[rank sc]|] eqn:Hr; [|reflexivity].
  apply getPlayerRank_positive in Hr.
  destruct (Z.eqb_spec rank 0); [lia|reflexivity].
Qed.



Example hot_group_sample :
  published (out (processEvents saturdayNoon false emptyStore hotBatch))
  = [RankChange (JNum 1) (JStr "p1") 1 None 5;
     RankChange (JNum 1) (JStr "p2") 2 None 7].
Proof. vm_compute. reflexivity. Qed.

(** ** Games played *)

(** C2 fails on the code: a player who is not yet in the store and has two
    accepted events in one batch, under different game modes, ends with
    [games_played] 1.  Both events are standalone; both existence tests run
    before the shared pipeline is executed, so the second event's record
    creation resets the counters the first one had incremented. *)
Theorem games_played_reset_by_second_standalone_event :
  let s' := (eachBatch saturdayNoon tailing emptyStore twoModesBatch).1.2 in
  List.length (acceptedOf twoModesBatch) = 2%nat
  /\ Forall (fun e => playerId e = JStr "p1") (acceptedOf twoModesBatch)
  /\ gamesPlayed s' (JStr "p1") = 1
  /\ hget s' "player:p1" "total_score" = Some (HInt 7)
  /\ zscore s' "leaderboard:1:global" "p1" = Some 5
  /\ zscore s' "leaderboard:2:global" "p1" = Some 7.
Proof.
  cbv zeta. split; [reflexivity|]. split; [repeat constructor|].
  repeat split; vm_compute; reflexivity.
Qed.

(** The same two events as a hot group of one game mode are counted. *)
Example games_played_hot_group :
  gamesPlayed
    (eachBatch saturdayNoon tailing emptyStore
       [Json (mkEvent "p1" 1 (JNum 5)); Json (mkEvent "p1" 1 (JNum 7))]).1.2
    (JStr "p1") = 2.
Proof. vm_compute. reflexivity. Qed.

(** ** The replay bookkeeping of the handler *)

Lemma eachBatch_empty (d : date) (eng : engine) (s : store) (messages : list message) :
  acceptedOf messages = [] ->
  (eachBatch d eng s messages).1
  = (if isRebuilding eng
     then if EMPTY_BATCH_THRESHOLD <=? consecutiveEmptyBatches eng + 1
          then Engine false 0 None false
          else Engine true (consecutiveEmptyBatches eng + 1) (Some (now d))
                      (rebuildCheckInterval eng)
     else eng,
     s).
Proof.
  unfold acceptedOf, eachBatch.
  destruct (parseMessages messages) as [events parseOut]. cbn [fst].
  intros ->. destruct (isRebuilding eng); [|reflexivity].
  destruct (EMPTY_BATCH_THRESHOLD <=? consecutiveEmptyBatches eng + 1); reflexivity.
Qed.

Lemma eachBatch_engine_nonempty (d : date) (eng : engine) (s : store)
    (messages : list message) :
  acceptedOf messages <> [] ->
  (eachBatch d eng s messages).1.1
  = if isRebuilding eng
    then Engine true 0 (Some (now d)) (rebuildCheckInterval eng)
    else eng.
Proof.
  unfold acceptedOf, eachBatch.
  destruct (parseMessages messages) as [events parseOut]. cbn [fst].
  intros Hne. destruct events as [|e events]; [by destruct Hne|]. reflexivity.
Qed.

Lemma eachBatch_tailing_engine (d : date) (eng : engine) (s : store)
    (messages : list message) :
  isRebuilding eng = false -> (eachBatch d eng s messages).1.1 = eng.
Proof.
  intros Hreb. destruct (acceptedOf messages) as [|e events] eqn:Hacc.
  - rewrite eachBatch_empty by exact Hacc. by rewrite Hreb.
  - rewrite eachBatch_engine_nonempty by (rewrite Hacc; discriminate). by rewrite Hreb.
Qed.

Lemma eachBatches_cons (eng : engine) (s : store) (b : date * list message)
    (batches : list (date * list message)) :
  (eachBatches eng s (b :: batches)).1
  = (eachBatches (eachBatch b.1 eng s b.2).1.1 (eachBatch b.1 eng s b.2).1.2 batches).1.
Proof.
  unfold eachBatches. cbn [fold_left].
  destruct (eachBatch b.1 eng s b.2) as [[eng2 s2] o2]. cbn [fst snd].
  generalize (@nil effect ++ o2). generalize (@nil effect).
  revert eng2 s2. induction batches as [|b' batches IH]; intros eng2 s2 o o'; [reflexivity|].
  cbn [fold_left].
  destruct (eachBatch b'.1 eng2 s2 b'.2) as [[eng3 s3] o3]. apply IH.
Qed.

Lemma eachBatches_tailing_engine
    (eng : engine) (s : store) (batches : list (date * list message)) :
  isRebuilding eng = false ->
  (eachBatches eng s batches).1.1 = eng.
Proof.
  intros Hreb. revert s. induction batches as [|b batches IH]; intros s; [reflexivity|].
  rewrite eachBatches_cons.
  rewrite (eachBatch_tailing_engine b.1 eng s b.2 Hreb). apply IH.
Qed.

Lemma eachBatches_empty_store
    (eng : engine) (s : store) (batches : list (date * list message)) :
  Forall (fun b => acceptedOf b.2 = []) batches ->
  (eachBatches eng s batches).1.2 = s.
Proof.
  intros Hall. revert eng.
  induction Hall as [|b batches Hb _ IH]; intros eng; [reflexivity|].
  rewrite eachBatches_cons, (eachBatch_empty b.1 eng s b.2 Hb). cbn [fst snd]. apply IH.
Qed.

(** X1: in tailing mode the handler never changes the engine's replay
    state: after any sequence of batches the engine is the one it was, so
    replay is never entered again and the counters are left alone. *)
Theorem tailing_is_never_left
    (eng : engine) (s : store) (batches : list (date * list message)) :
  isRebuilding eng = false ->
  (eachBatches eng s batches).1.1 = eng.
Proof. apply eachBatches_tailing_engine. Qed.

Lemma tailing_is_never_left_witness :
  (eachBatches tailing emptyStore sampleBatches).1.1 = tailing.
Proof. apply tailing_is_never_left. reflexivity. Defined.

Lemma replaying_after_empty_batches (batches : list (date * list message))
    (eng : engine) (s : store) :
  isRebuilding eng = true ->
  0 <= consecutiveEmptyBatches eng < 3 ->
  Forall (fun b => acceptedOf b.2 = []) batches ->
  isRebuilding (eachBatches eng s batches).1.1
  = (consecutiveEmptyBatches eng + Z.of_nat (List.length batches) <? 3).
Proof.
  intros Hreb Hc Hall. revert eng s Hreb Hc.
  induction Hall as [|b batches Hb _ IH]; intros eng s Hreb Hc.
  - cbn. rewrite Hreb. symmetry. apply Z.ltb_lt. lia.
  - rewrite eachBatches_cons, (eachBatch_empty b.1 eng s b.2 Hb), Hreb. cbn [fst snd].
    unfold EMPTY_BATCH_THRESHOLD.
    destruct (Z.leb_spec 3 (consecutiveEmptyBatches eng + 1)) as [Hend|Hgo].
    + rewrite eachBatches_tailing_engine by reflexivity. cbn [isRebuilding].
      symmetry. apply Z.ltb_ge. cbn [List.length]. lia.
    + rewrite IH; [|reflexivity|cbn [consecutiveEmptyBatches]; lia].
      cbn [consecutiveEmptyBatches List.length]. f_equal. lia.
Qed.

(** X2: during replay, a run of batches none of which holds an accepted
    event leaves the store as it is, and the engine is still rebuilding
    after it exactly when the count of consecutive empty batches, the run
    included, is below 3: the third empty batch in a row ends the replay. *)
Theorem replay_ends_at_third_empty_batch
    (eng : engine) (s : store) (batches : list (date * list message)) :
  isRebuilding eng = true ->
  0 <= consecutiveEmptyBatches eng < 3 ->
  Forall (fun b => acceptedOf b.2 = []) batches ->
  (eachBatches eng s batches).1.2 = s
  /\ isRebuilding (eachBatches eng s batches).1.1
     = (consecutiveEmptyBatches eng + Z.of_nat (List.length batches) <? 3).
Proof.
  intros Hreb Hc Hall. split; [by apply eachBatches_empty_store|].
  by apply replaying_after_empty_batches.
Qed.

Lemma replay_ends_at_third_empty_batch_witness :
  isRebuilding
    (eachBatches rebuilding emptyStore
       [(saturdayNoon, [Garbled]); (saturdayNoon, []);
        (saturdayNoon, [Json (mkEvent "p1" 1 JNull)])]).1.1 = false.
Proof.
  apply (replay_ends_at_third_empty_batch rebuilding emptyStore
           [(saturdayNoon, [Garbled]); (saturdayNoon, []);
            (saturdayNoon, [Json (mkEvent "p1" 1 JNull)])]).
  - reflexivity.
  - cbn. lia.
  - repeat constructor.
Defined.

(** X3: during replay a batch that holds an accepted event keeps the engine
    rebuilding, sets the count of consecutive empty batches back to 0 and
    records the time of the batch; the replay then needs three more empty
    batches in a row to end, however many came before. *)
Theorem accepted_event_restarts_the_empty_count
    (d : date) (eng : engine) (s : store) (messages : list message)
    (batches : list (date * list message)) :
  isRebuilding eng = true ->
  acceptedOf messages <> [] ->
  Forall (fun b => acceptedOf b.2 = []) batches ->
  (eachBatch d eng s messages).1.1
  = Engine true 0 (Some (now d)) (rebuildCheckInterval eng)
  /\ isRebuilding
       (eachBatches (eachBatch d eng s messages).1.1 (eachBatch d eng s messages).1.2
                    batches).1.1
     = (Z.of_nat (List.length batches) <? 3).
Proof.
  intros Hreb Hne Hall.
  rewrite (eachBatch_engine_nonempty d eng s messages Hne), Hreb.
  split; [reflexivity|].
  rewrite replaying_after_empty_batches; [reflexivity|reflexivity|cbn; lia|exact Hall].
Qed.

Lemma accepted_event_restarts_the_empty_count_witness :
  isRebuilding
    (eachBatches
       (eachBatch saturdayNoon (Engine true 2 (Some 1) true) emptyStore
                  [Json (mkEvent "p1" 1 (JNum 5))]).1.1
       (eachBatch saturdayNoon (Engine true 2 (Some 1) true) emptyStore
                  [Json (mkEvent "p1" 1 (JNum 5))]).1.2
       [(saturdayNoon, []); (saturdayNoon, [Garbled])]).1.1
  = true.
Proof.
  apply (accepted_event_restarts_the_empty_count saturdayNoon (Engine true 2 (Some 1) true)
           emptyStore [Json (mkEvent "p1" 1 (JNum 5))]
           [(saturdayNoon, []); (saturdayNoon, [Garbled])]).
  - reflexivity.
  - discriminate.
  - repeat constructor.
Defined.

(** ** The idle watcher and the start of the consumer *)

Lemma rebuildCheck_tailing (nowMs : Z) (eng : engine) :
  isRebuilding eng = false -> rebuildCheck nowMs eng = eng.
Proof.
  intros Hreb. unfold rebuildCheck. rewrite Hreb.
  destruct (rebuildCheckInterval eng); [|reflexivity].
  by destruct (lastBatchProcessedTime eng).
Qed.

Lemma rebuildChecks_tailing (ticks : list Z) (eng : engine) :
  isRebuilding eng = false -> rebuildChecks ticks eng = eng.
Proof.
  intros Hreb. unfold rebuildChecks.
  induction ticks as [|t ticks IH]; cbn [fold_left]; [reflexivity|].
  by rewrite rebuildCheck_tailing.
Qed.

Lemma rebuildChecks_armed (ticks : list Z) (count last : Z) :
  last <> 0 ->
  rebuildChecks ticks (Engine true count (Some last) true)
  = if forallb (fun t => t - last <? REBUILD_IDLE_TIMEOUT) ticks
    then Engine true count (Some last) true
    else Engine false 0 None false.
Proof.
  intros Hlast. unfold rebuildChecks.
  induction ticks as [|t ticks IH]; cbn [fold_left forallb]; [reflexivity|].
  unfold rebuildCheck at 2. cbn [rebuildCheckInterval lastBatchProcessedTime isRebuilding].
  destruct (Z.eqb_spec last 0) as [|_]; [done|]. cbn [negb andb].
  rewrite Z.leb_antisym.
  destruct (t - last <? REBUILD_IDLE_TIMEOUT); cbn [negb andb]; [exact IH|].
  fold (rebuildChecks ticks (Engine false 0 None false)).
  by rewrite rebuildChecks_tailing.
Qed.

(** X4: the idle watcher never starts a replay, and it ends one only when
    it is armed: a tailing engine, and an engine whose interval was cleared,
    are left as they are by every tick. *)
Theorem watcher_only_ends_replay (ticks : list Z) (eng : engine) :
  (isRebuilding eng = false \/ rebuildCheckInterval eng = false) ->
  rebuildChecks ticks eng = eng.
Proof.
  intros [Hreb|Hoff]; [by apply rebuildChecks_tailing|].
  unfold rebuildChecks. induction ticks as [|t ticks IH]; cbn [fold_left]; [reflexivity|].
  unfold rebuildCheck at 2. by rewrite Hoff.
Qed.

Lemma watcher_only_ends_replay_witness :
  rebuildChecks [1000; 9000] tailing = tailing
  /\ rebuildChecks [1000; 9000] (Engine true 0 (Some 1) false) = Engine true 0 (Some 1) false.
Proof.
  split; apply watcher_only_ends_replay; [by left|by right].
Defined.

(** X5: after a batch handled during replay at clock reading [now d] (not
    0) that leaves the engine rebuilding, the armed watcher ends the replay
    at the first tick that comes 5000 ms or more after the batch, and not
    before: the engine is still rebuilding after the ticks exactly when all
    of them come less than 5000 ms after the batch. *)
Theorem watcher_ends_replay_after_five_idle_seconds
    (d : date) (eng : engine) (s : store) (messages : list message) (ticks : list Z) :
  isRebuilding eng = true ->
  rebuildCheckInterval eng = true ->
  now d <> 0 ->
  isRebuilding (eachBatch d eng s messages).1.1 = true ->
  isRebuilding (rebuildChecks ticks (eachBatch d eng s messages).1.1)
  = forallb (fun t => t - now d <? 5000) ticks.
Proof.
  intros Hreb Harmed Hnow Hstill.
  assert (Heng : exists count,
             (eachBatch d eng s messages).1.1 = Engine true count (Some (now d)) true).
  { destruct (acceptedOf messages) as [|e events] eqn:Hacc.
    - rewrite eachBatch_empty in Hstill |- * by exact Hacc. rewrite Hreb in Hstill |- *.
      cbn [fst] in Hstill |- *.
      destruct (EMPTY_BATCH_THRESHOLD <=? consecutiveEmptyBatches eng + 1);
        [discriminate|]. rewrite Harmed. eauto.
    - rewrite eachBatch_engine_nonempty by (rewrite Hacc; discriminate).
      rewrite Hreb, Harmed. eauto. }
  destruct Heng as [count ->]. rewrite rebuildChecks_armed by exact Hnow.
  unfold REBUILD_IDLE_TIMEOUT.
  by destruct (forallb (fun t => t - now d <? 5000) ticks).
Qed.

Lemma watcher_ends_replay_after_five_idle_seconds_witness :
  isRebuilding
    (rebuildChecks [1673092801000; 1673092804999; 1673092805000]
       (eachBatch saturdayNoon rebuilding emptyStore [Json (mkEvent "p1" 1 (JNum 5))]).1.1)
  = false.
Proof.
  apply (watcher_ends_replay_after_five_idle_seconds saturdayNoon rebuilding emptyStore
           [Json (mkEvent "p1" 1 (JNum 5))]
           [1673092801000; 1673092804999; 1673092805000]).
  - reflexivity.
  - reflexivity.
  - discriminate.
  - reflexivity.
Defined.

(** X6: a consumer that is not running and whose subscription succeeds
    subscribes from the beginning exactly when [needsRebuild] answers
    [true], whether or not the offset reset succeeded; on a topic that then
    stays idle, it is still rebuilding after the watcher's ticks exactly when
    a rebuild was needed and every tick came less than 5000 ms after the
    start.  A consumer that is already running is left alone. *)
Theorem idle_replay_is_ended_by_the_watcher
    (eng : engine) (c : redisClient) (k : kafkaCalls) (nowMs : Z) (ticks : list Z) :
  nowMs <> 0 ->
  (exists eng',
      startConsumer false eng c k Resolves nowMs = Running eng' (needsRebuild c)
      /\ isRebuilding eng' = needsRebuild c
      /\ isRebuilding (rebuildChecks ticks eng')
         = needsRebuild c && forallb (fun t => t - nowMs <? 5000) ticks)
  /\ forall subscribe, startConsumer true eng c k subscribe nowMs = AlreadyRunning.
Proof.
  intros Hnow. split; [|reflexivity]. unfold startConsumer.
  destruct (needsRebuild c); eexists; (split; [reflexivity|]); (split; [reflexivity|]).
  - rewrite rebuildChecks_armed by exact Hnow. unfold REBUILD_IDLE_TIMEOUT.
    by destruct (forallb (fun t => t - nowMs <? 5000) ticks).
  - by rewrite rebuildChecks_tailing.
Qed.

Lemma idle_replay_is_ended_by_the_watcher_witness :
  exists eng',
    startConsumer false tailing unreachableClient deleteTimesOut Resolves 1000
    = Running eng' (needsRebuild unreachableClient)
    /\ isRebuilding eng' = needsRebuild unreachableClient
    /\ isRebuilding (rebuildChecks [2000; 6000] eng')
       = needsRebuild unreachableClient && forallb (fun t => t - 1000 <? 5000) [2000; 6000].
Proof.
  apply (idle_replay_is_ended_by_the_watcher tailing unreachableClient deleteTimesOut
           1000 [2000; 6000]).
  discriminate.
Defined.

(** X7: stopping a running consumer clears the watcher's interval before
    it disconnects, so no later tick changes the state it leaves, also when
    the disconnect fails; when the disconnect succeeds the consumer is
    stopped, tailing, with its counters reset, and when it fails the
    consumer stays marked as running with its replay flag as it was. *)
Theorem stop_disarms_the_watcher
    (eng : engine) (disconnect : outcome) (ticks : list Z) :
  rebuildChecks ticks (stopConsumer true eng disconnect).2
  = (stopConsumer true eng disconnect).2
  /\ (stopConsumer true eng disconnect).1
     = match disconnect with Resolves => false | Rejects _ => true end
  /\ isRebuilding (stopConsumer true eng disconnect).2
     = match disconnect with Resolves => false | Rejects _ => isRebuilding eng end.
Proof.
  unfold stopConsumer, rebuildChecks. destruct disconnect as [|m]; cbn [fst snd isRebuilding].
  - split; [|by split]. induction ticks as [|t ticks IH]; [reflexivity|exact IH].
  - split; [|by split]. induction ticks as [|t ticks IH]; [reflexivity|exact IH].
Qed.

(** ** The Redis retry delay *)

(** X8: the delay before reconnection attempt [times] grows by 50 ms per
    attempt (it is linear, not doubling) up to attempt 40 and is 2000 ms
    from then on; it never exceeds 2000 ms and never decreases. *)
Theorem retry_delay_is_linear_and_capped (times : Z) :
  (times <= 40 -> retryStrategy times = 50 * times)
  /\ (40 <= times -> retryStrategy times = 2000)
  /\ retryStrategy times <= 2000
  /\ retryStrategy times <= retryStrategy (times + 1).
Proof. unfold retryStrategy. repeat split; lia. Qed.

Lemma retry_delay_is_linear_and_capped_witness :
  retryStrategy 3 = 150 /\ retryStrategy 41 = 2000.
Proof.
  split.
  - rewrite (proj1 (retry_delay_is_linear_and_capped 3)); [reflexivity|lia].
  - apply (retry_delay_is_linear_and_capped 41). lia.
Defined.

(** ** Every sorted set is the sum of what the events add *)

Lemma zdeltas_eventCmds_flag (d : date) (playerExists : bool) (e : event) (k m : string) :
  zdeltas k m (eventCmds d playerExists e) = zdeltas k m (eventCmds d true e).
Proof. unfold eventCmds, zdeltas. cbn [foldr]. by destruct playerExists. Qed.

Lemma scoreOf_weekly_any (d : date) (e : event) (s : store) (k m : string) :
  scoreOf (updateWeeklyLeaderboard d (gameMode e) (playerId e) (score e) s).1 k m
  = scoreOf s k m + weeklyDelta d k m e.
Proof.
  unfold updateWeeklyLeaderboard, weeklyDelta.
  destruct (Number (score e)) as [n|]; cbn [fst]; [|ring].
  destruct (n =? 0); cbn [fst]; [ring|].
  rewrite !scoreOf_execCmd. cbn [zdelta]. ring.
Qed.

Lemma scoreOf_applyEvent_any (d : date) (s : store) (e : event) (k m : string) :
  scoreOf (applyEvent d s e) k m = scoreOf s k m + eventDelta d k m e.
Proof.
  unfold applyEvent, eventDelta.
  rewrite scoreOf_exec, scoreOf_weekly_any, zdeltas_eventCmds_flag. ring.
Qed.

Lemma deltaSum_app (d : date) (k m : string) (a b : list event) :
  deltaSum d k m (a ++ b) = deltaSum d k m a + deltaSum d k m b.
Proof.
  unfold deltaSum. induction a as [|e a IH]; cbn [app foldr]; [ring|]. rewrite IH. ring.
Qed.

Lemma deltaSum_perm (d : date) (k m : string) (a b : list event) :
  a ≡ₚ b -> deltaSum d k m a = deltaSum d k m b.
Proof.
  unfold deltaSum. induction 1 as [|x a b _ IH|x y a|a b c _ IH1 _ IH2]; cbn [foldr].
  - reflexivity.
  - by rewrite IH.
  - ring.
  - by rewrite IH1.
Qed.

Lemma scoreOf_applyEvents_any (d : date) (es : list event) (s : store) (k m : string) :
  scoreOf (fold_left (applyEvent d) es s) k m = scoreOf s k m + deltaSum d k m es.
Proof.
  revert s. induction es as [|e es IH]; intros s; cbn [fold_left].
  - unfold deltaSum. cbn [foldr]. ring.
  - rewrite IH, scoreOf_applyEvent_any. unfold deltaSum. cbn [foldr]. ring.
Qed.

Lemma scoreOf_hot_groups_any (d : date) (reb : bool) (initialRanks : gmap string (option Z))
    (groups : list (string * list event)) (r : run) (k m : string) :
  scoreOf (redis (fold_left (processGroup d reb initialRanks) groups r)) k m
  = scoreOf (redis r) k m + deltaSum d k m (hotEventsOf groups).
Proof.
  unfold hotEventsOf. revert r.
  induction groups as [|[key es] groups IH]; intros r; cbn [fold_left flat_map].
  - unfold deltaSum. cbn [foldr]. ring.
  - rewrite IH, deltaSum_app. unfold processGroup. cbn [fst snd].
    destruct (1 <? List.length es)%nat.
    + rewrite redis_hot_group, scoreOf_applyEvents_any. ring.
    + unfold deltaSum at 2. cbn [foldr]. ring.
Qed.

Lemma scoreOf_queueStandalone_any (d : date) (es : list event)
    (s : store) (pipeline : list cmd) (o : list effect) (k m : string) :
  let acc := fold_left (queueStandalone d) es (s, pipeline, o) in
  scoreOf acc.1.1 k m + zdeltas k m acc.1.2
  = scoreOf s k m + zdeltas k m pipeline + deltaSum d k m es.
Proof.
  revert s pipeline o. induction es as [|e es IH]; intros s pipeline o; cbn [fold_left].
  - cbv zeta. cbn [fst snd]. unfold deltaSum. cbn [foldr]. ring.
  - rewrite queueStandalone_step. cbv zeta in IH |- *. rewrite IH.
    rewrite scoreOf_weekly_any, zdeltas_app, zdeltas_eventCmds_flag.
    unfold deltaSum, eventDelta. cbn [foldr]. ring.
Qed.

Lemma scoreOf_standalone_any (d : date) (reb : bool) (initialRanks : gmap string (option Z))
    (es : list event) (r : run) (k m : string) :
  scoreOf (redis (processStandalone d reb initialRanks es r)) k m
  = scoreOf (redis r) k m + deltaSum d k m es.
Proof.
  unfold processStandalone. destruct es as [|e es].
  - unfold deltaSum. cbn [foldr]. ring.
  - pose proof (scoreOf_queueStandalone_any d (e :: es) (redis r) [] (out r) k m) as Hq.
    cbv zeta in Hq.
    destruct (fold_left (queueStandalone d) (e :: es) (redis r, [], out r))
      as [[s1 pipeline] o1]. cbn [fst snd redis] in Hq |- *.
    rewrite scoreOf_exec, Hq. unfold zdeltas at 1. cbn [foldr]. ring.
Qed.

Lemma scoreOf_processEvents_any (d : date) (reb : bool) (s : store) (events : list event)
    (k m : string) :
  scoreOf (redis (processEvents d reb s events)) k m
  = scoreOf s k m + deltaSum d k m events.
Proof.
  unfold processEvents. cbn [redis].
  rewrite scoreOf_standalone_any, scoreOf_hot_groups_any. cbn [redis].
  rewrite <- Z.add_assoc, <- deltaSum_app.
  f_equal. apply deltaSum_perm.
  rewrite hot_and_standalone_perm. apply eventGroups_perm.
Qed.

Lemma scoreOf_eachBatch_any (d : date) (eng : engine) (s : store) (messages : list message)
    (k m : string) :
  scoreOf (eachBatch d eng s messages).1.2 k m
  = scoreOf s k m + deltaSum d k m (acceptedOf messages).
Proof.
  unfold eachBatch, acceptedOf.
  destruct (parseMessages messages) as [events parseOut]. cbn [fst snd].
  destruct events as [|e events].
  - unfold deltaSum. cbn [foldr].
    destruct (isRebuilding eng); [|cbn [fst snd]; ring].
    destruct (EMPTY_BATCH_THRESHOLD <=? consecutiveEmptyBatches eng + 1); cbn [fst snd]; ring.
  - cbn [fst snd]. apply scoreOf_processEvents_any.
Qed.

Lemma scoreOf_eachBatches_any (eng : engine) (s : store)
    (batches : list (date * list message)) (k m : string) :
  scoreOf (eachBatches eng s batches).1.2 k m = scoreOf s k m + deltaSumAll k m batches.
Proof.
  revert eng s. induction batches as [|b batches IH]; intros eng s.
  - unfold deltaSumAll. cbn. ring.
  - rewrite eachBatches_cons. cbn [snd]. rewrite IH, scoreOf_eachBatch_any.
    unfold deltaSumAll. cbn [foldr]. ring.
Qed.

Lemma dailyKey_inj (g g' : Z) (today : string) :
  dailyKey (JNum g) today = dailyKey (JNum g') today -> g = g'.
Proof.
  unfold dailyKey; cbn [toString]. intros H. apply String.app_inj in H.
  apply colon_split in H as [H _]; auto using colonFree_pretty_Z.
  by apply pretty_Z_inj in H.
Qed.

Lemma weeklyKey_inj (g g' : Z) (weekId : string) :
  weeklyKey (JNum g) weekId = weeklyKey (JNum g') weekId -> g = g'.
Proof.
  unfold weeklyKey; cbn [toString]. intros H. apply String.app_inj in H.
  apply colon_split in H as [H _]; auto using colonFree_pretty_Z.
  by apply pretty_Z_inj in H.
Qed.

Lemma weeklyKey_ne_dailyKey (g g' : Z) (weekId today : string) :
  weeklyKey (JNum g) weekId <> dailyKey (JNum g') today.
Proof.
  unfold weeklyKey, dailyKey; cbn [toString]. intros H. apply String.app_inj in H.
  apply colon_split in H as [_ H]; auto using colonFree_pretty_Z. discriminate.
Qed.

Lemma scoreSum_single (p : string) (g : Z) (p' : string) (g' n : Z) (un : jsval) :
  scoreSum p g [Event (JStr p') un (JNum g') (JNum n)]
  = if bool_decide (p' = p /\ g' = g) then n else 0.
Proof.
  cbn [scoreSum playerId gameMode score redisNumber default].
  rewrite (bool_decide_ext (JStr p' = JStr p /\ JNum g' = JNum g) (p' = p /\ g' = g)).
  - destruct (bool_decide (p' = p /\ g' = g)); unfold id; ring.
  - split; intros [H1 H2]; [injection H1 as ->; injection H2 as ->|subst]; by split.
Qed.

Lemma eventDelta_daily (d : date) (e : event) (p : string) (g : Z) :
  isScoreEvent e = true ->
  eventDelta d (dailyKey (JNum g) (beforeT (toISOString d))) p e = scoreSum p g [e].
Proof.
  unfold isScoreEvent. destruct e as [pid un gm sc]; cbn [playerId gameMode score].
  destruct pid as [| | | |p']; try discriminate. destruct gm as [| | |g'|]; try discriminate.
  destruct sc as [| | |n|]; try discriminate. intros _.
  rewrite scoreSum_single.
  unfold eventDelta, weeklyDelta, eventCmds, zdeltas.
  cbn [foldr zdelta playerId gameMode score username redisNumber default redisArg toString
       Number].
  set (k := dailyKey (JNum g) (beforeT (toISOString d))).
  rewrite (bool_decide_eq_false_2 (globalKey (JNum g') = k /\ p' = p))
    by (intros [H _]; symmetry in H; exact (dailyKey_ne_globalKey _ _ _ H)).
  rewrite (bool_decide_ext (dailyKey (JNum g') (beforeT (toISOString d)) = k /\ p' = p)
                           (p' = p /\ g' = g)).
  2:{ subst k. split.
      - intros [H ->]. apply dailyKey_inj in H. by split.
      - intros [-> ->]. by split. }
  assert (Hw : (if n =? 0 then 0
                else if bool_decide (weeklyKey (JNum g') (getWeekIdentifier d) = k /\ p' = p)
                     then id n else 0) = 0).
  { destruct (n =? 0); [reflexivity|].
    rewrite bool_decide_eq_false_2; [reflexivity|].
    intros [H _]. exact (weeklyKey_ne_dailyKey _ _ _ _ H). }
  rewrite Hw. destruct (bool_decide (p' = p /\ g' = g)); unfold id; ring.
Qed.

Lemma eventDelta_weekly (d : date) (e : event) (p : string) (g : Z) :
  isScoreEvent e = true ->
  eventDelta d (weeklyKey (JNum g) (getWeekIdentifier d)) p e = scoreSum p g [e].
Proof.
  unfold isScoreEvent. destruct e as [pid un gm sc]; cbn [playerId gameMode score].
  destruct pid as [| | | |p']; try discriminate. destruct gm as [| | |g'|]; try discriminate.
  destruct sc as [| | |n|]; try discriminate. intros _.
  rewrite scoreSum_single.
  unfold eventDelta, weeklyDelta, eventCmds, zdeltas.
  cbn [foldr zdelta playerId gameMode score username redisNumber default redisArg toString
       Number].
  set (k := weeklyKey (JNum g) (getWeekIdentifier d)).
  rewrite (bool_decide_eq_false_2 (globalKey (JNum g') = k /\ p' = p))
    by (intros [H _]; symmetry in H; exact (weeklyKey_ne_globalKey _ _ _ H)).
  rewrite (bool_decide_eq_false_2 (dailyKey (JNum g') _ = k /\ p' = p))
    by (intros [H _]; symmetry in H; exact (weeklyKey_ne_dailyKey _ _ _ _ H)).
  rewrite (bool_decide_ext (weeklyKey (JNum g') (getWeekIdentifier d) = k /\ p' = p)
                           (p' = p /\ g' = g)).
  2:{ subst k. split.
      - intros [H ->]. apply weeklyKey_inj in H. by split.
      - intros [-> ->]. by split. }
  destruct (Z.eqb_spec n 0) as [->|Hn];
    destruct (bool_decide (p' = p /\ g' = g)); unfold id; ring.
Qed.

Lemma deltaSum_scoreSum (d : date) (k : string) (p : string) (g : Z) (events : list event) :
  Forall (fun e => isScoreEvent e = true) events ->
  (forall e, isScoreEvent e = true -> eventDelta d k p e = scoreSum p g [e]) ->
  deltaSum d k p events = scoreSum p g events.
Proof.
  intros Hall Hdelta. unfold deltaSum.
  induction Hall as [|e events He _ IH]; cbn [foldr]; [reflexivity|].
  rewrite IH, (Hdelta e He). cbn [scoreSum]. ring.
Qed.

Lemma deltaSumAll_scoreSum (key : date -> string) (k : string) (p : string) (g : Z)
    (batches : list (date * list message)) :
  Forall (fun e => isScoreEvent e = true) (acceptedOfAll batches) ->
  Forall (fun b => key b.1 = k) batches ->
  (forall d e, isScoreEvent e = true -> eventDelta d (key d) p e = scoreSum p g [e]) ->
  deltaSumAll k p batches = scoreSum p g (acceptedOfAll batches).
Proof.
  intros Hall Hkey Hdelta. unfold deltaSumAll, acceptedOfAll.
  induction Hkey as [|b batches Hb _ IH]; cbn [foldr flat_map]; [reflexivity|].
  cbn [flat_map] in Hall. apply Forall_app in Hall as [Hhere Hrest].
  rewrite IH by exact Hrest. rewrite scoreSum_app. f_equal.
  apply deltaSum_scoreSum; [exact Hhere|]. intros e He. rewrite <- Hb. by apply Hdelta.
Qed.





(** ** The counters of a player who is already in the store *)

(** Two readings of a counter are equal when their integers are. *)
Ltac same_counter := apply (f_equal (fun z => Some (HInt z))); ring.

Lemma hget_exists (s : store) (k f : string) (v : hval) :
  hget s k f = Some v -> exists_ s k = true.
Proof.
  unfold hget, hgetall, exists_. intros H.
  destruct (hashes s !! k) as [h|];
    [|cbn [default] in H; rewrite lookup_empty in H; discriminate].
  rewrite bool_decide_eq_true_2 by eauto. reflexivity.
Qed.

Lemma hsetFields_other (fields : list (string * hval)) (h : gmap string hval) (f : string) :
  forallb (fun fv => negb (String.eqb fv.1 f)) fields = true ->
  hsetFields fields h !! f = h !! f.
Proof.
  unfold hsetFields. revert h.
  induction fields as [|[f0 v] fields IH]; intros h Hall; cbn [fold_left]; [reflexivity|].
  cbn [forallb fst] in Hall. apply andb_true_iff in Hall as [Hf0 Hall].
  rewrite IH by exact Hall. cbn [fst snd]. apply lookup_insert_ne.
  apply negb_true_iff, String.eqb_neq in Hf0. exact Hf0.
Qed.

Lemma hget_execCmd_counter (s : store) (c : cmd) (k f : string) (a : Z) :
  hget s k f = Some (HInt a) ->
  keepsField k f c = true ->
  hget (execCmd s c) k f = Some (HInt (a + hdelta k f c)).
Proof.
  intros Hget Hkeep. rewrite hget_execCmd.
  destruct c as [key fields|key field incr|key incr member|key seconds];
    cbn [hdelta]; rewrite ?Z.add_0_r; try exact Hget.
  - cbn [keepsField] in Hkeep. destruct (decide (key = k)) as [->|Hne]; [|exact Hget].
    rewrite bool_decide_eq_true_2 in Hkeep by reflexivity. cbn [negb orb] in Hkeep.
    rewrite hsetFields_other by exact Hkeep. exact Hget.
  - destruct (redisNumber incr) as [n|]; cbn [default].
    + destruct (decide (key = k /\ field = f)) as [Heq|Hne].
      * rewrite bool_decide_eq_true_2 by exact Heq. by rewrite Hget.
      * rewrite bool_decide_eq_false_2 by exact Hne. by rewrite Z.add_0_r.
    + destruct (bool_decide (key = k /\ field = f)); by rewrite Z.add_0_r.
Qed.

Lemma hget_exec_counter (s : store) (pipeline : list cmd) (k f : string) (a : Z) :
  hget s k f = Some (HInt a) ->
  Forall (fun c => keepsField k f c = true) pipeline ->
  hget (exec s pipeline) k f = Some (HInt (a + hdeltas k f pipeline)).
Proof.
  intros Hget Hall. unfold exec, hdeltas. revert s a Hget.
  induction Hall as [|c pipeline Hc _ IH]; intros s a Hget; cbn [fold_left foldr].
  - by rewrite Z.add_0_r.
  - rewrite (IH _ (a + hdelta k f c)) by (by apply hget_execCmd_counter).
    same_counter.
Qed.

Lemma hashes_weekly (d : date) (g p sc : jsval) (s : store) :
  hashes (updateWeeklyLeaderboard d g p sc s).1 = hashes s.
Proof.
  unfold updateWeeklyLeaderboard. destruct (Number sc) as [n|]; [|reflexivity].
  destruct (n =? 0); [reflexivity|]. cbn [fst]. by rewrite hashes_expire, hashes_zincrby.
Qed.

Lemma hget_same_hashes (s s' : store) (k f : string) :
  hashes s' = hashes s -> hget s' k f = hget s k f.
Proof. unfold hget, hgetall. by intros ->. Qed.

Lemma exists_same_hashes (s s' : store) (k f : string) (v : hval) :
  hashes s' = hashes s -> hget s k f = Some v -> exists_ s' k = true.
Proof.
  intros Hh Hget. apply (hget_exists s' k f v). by rewrite (hget_same_hashes s s').
Qed.

Lemma playerKey_inj (p p' : string) : playerKey (JStr p) = playerKey (JStr p') -> p = p'.
Proof. unfold playerKey. cbn [toString]. apply String.app_inj. Qed.

Lemma hdeltas_app (k f : string) (a b : list cmd) :
  hdeltas k f (a ++ b) = hdeltas k f a + hdeltas k f b.
Proof.
  unfold hdeltas. induction a as [|c a IH]; cbn [app foldr]; [ring|]. rewrite IH. ring.
Qed.

Section ExistingPlayer.

(** The player, one of the two counters of the player's hash, and what an
    event adds to it. *)
Variable p : string.
Variable f : string.
Variable delta : event -> Z.
Hypothesis f_not_username : String.eqb "username" f = false.
Hypothesis delta_spec : forall d flag e,
  isScoreEvent e = true ->
  hdeltas (playerKey (JStr p)) f (eventCmds d flag e) = delta e.

Let k := playerKey (JStr p).
Let total (events : list event) : Z := foldr (fun e acc => delta e + acc) 0 events.

Lemma eventCmds_keep (d : date) (flag : bool) (e : event) :
  (playerId e = JStr p -> flag = true) ->
  isScoreEvent e = true ->
  Forall (fun c => keepsField k f c = true) (eventCmds d flag e).
Proof.
  intros Hflag He. unfold eventCmds.
  apply Forall_cons. split; [|repeat constructor].
  unfold isScoreEvent in He. destruct (playerId e) as [| | | |p'] eqn:Hp; try discriminate.
  destruct (decide (p' = p)) as [->|Hne].
  - rewrite Hflag by reflexivity. cbn [keepsField forallb fst].
    rewrite f_not_username. cbn [negb andb]. apply orb_true_r.
  - assert (Hk : playerKey (JStr p') <> k)
      by (intros Hk; apply playerKey_inj in Hk; by destruct Hne).
    destruct flag; cbn [keepsField]; by rewrite bool_decide_eq_false_2.
Qed.

Lemma counter_applyEvent (d : date) (s : store) (e : event) (a : Z) :
  isScoreEvent e = true ->
  hget s k f = Some (HInt a) ->
  hget (applyEvent d s e) k f = Some (HInt (a + delta e)).
Proof.
  intros He Hget. unfold applyEvent.
  rewrite (hget_exec_counter _ _ k f a).
  - by rewrite delta_spec.
  - rewrite (hget_same_hashes s) by apply hashes_weekly. exact Hget.
  - apply eventCmds_keep; [|exact He]. intros ->. by apply (hget_exists s k f (HInt a)).
Qed.

Lemma counter_applyEvents (d : date) (es : list event) (s : store) (a : Z) :
  Forall (fun e => isScoreEvent e = true) es ->
  hget s k f = Some (HInt a) ->
  hget (fold_left (applyEvent d) es s) k f = Some (HInt (a + total es)).
Proof.
  intros Hall. revert s a. induction Hall as [|e es He _ IH]; intros s a Hget;
    cbn [fold_left]; subst total; cbn [foldr].
  - by rewrite Z.add_0_r.
  - rewrite (IH _ (a + delta e)) by (by apply counter_applyEvent).
    same_counter.
Qed.

Lemma total_app (a b : list event) : total (a ++ b) = total a + total b.
Proof.
  subst total. cbv beta. induction a as [|e a IH]; cbn [app foldr]; [ring|].
  rewrite IH. ring.
Qed.

Lemma total_perm (a b : list event) : a ≡ₚ b -> total a = total b.
Proof.
  subst total. cbv beta.
  induction 1 as [|x a b _ IH|x y a|a b c _ IH1 _ IH2]; cbn [foldr].
  - reflexivity.
  - by rewrite IH.
  - ring.
  - by rewrite IH1.
Qed.

Lemma counter_hot_groups (d : date) (reb : bool) (initialRanks : gmap string (option Z))
    (groups : list (string * list event)) (r : run) (a : Z) :
  Forall (fun e => isScoreEvent e = true) (hotEventsOf groups) ->
  hget (redis r) k f = Some (HInt a) ->
  hget (redis (fold_left (processGroup d reb initialRanks) groups r)) k f
  = Some (HInt (a + total (hotEventsOf groups))).
Proof.
  unfold hotEventsOf. revert r a.
  induction groups as [|[key es] groups IH]; intros r a Hall Hget; cbn [fold_left flat_map].
  - subst total. cbn [foldr]. by rewrite Z.add_0_r.
  - cbn [flat_map] in Hall. apply Forall_app in Hall as [Hes Hrest].
    rewrite total_app. unfold processGroup at 2. cbn [fst snd] in Hes |- *.
    destruct (1 <? List.length es)%nat.
    + rewrite (IH _ (a + total es) Hrest).
      * same_counter.
      * rewrite redis_hot_group. by apply counter_applyEvents.
    + rewrite (IH r a Hrest Hget). reflexivity.
Qed.

Lemma counter_queueStandalone (d : date) (es : list event)
    (s0 s : store) (pipeline : list cmd) (o : list effect) (a : Z) :
  Forall (fun e => isScoreEvent e = true) es ->
  hget s0 k f = Some (HInt a) ->
  hashes s = hashes s0 ->
  Forall (fun c => keepsField k f c = true) pipeline ->
  let acc := fold_left (queueStandalone d) es (s, pipeline, o) in
  hashes acc.1.1 = hashes s0
  /\ Forall (fun c => keepsField k f c = true) acc.1.2
  /\ hdeltas k f acc.1.2 = hdeltas k f pipeline + total es.
Proof.
  intros Hall Hget. revert s pipeline o.
  induction Hall as [|e es He _ IH]; intros s pipeline o Hh Hkeep; cbn [fold_left].
  - cbv zeta. cbn [fst snd]. subst total. cbn [foldr]. repeat split; [exact Hh|exact Hkeep|ring].
  - rewrite queueStandalone_step.
    destruct (IH (updateWeeklyLeaderboard d (gameMode e) (playerId e) (score e) s).1
                 (pipeline ++ eventCmds d (exists_ s (playerKey (playerId e))) e)
                 (o ++ (updateWeeklyLeaderboard d (gameMode e) (playerId e) (score e) s).2))
      as (IH1 & IH2 & IH3).
    + by rewrite hashes_weekly.
    + apply Forall_app. split; [exact Hkeep|]. apply eventCmds_keep; [|exact He].
      intros ->. by apply (exists_same_hashes s0 s k f (HInt a)).
    + cbv zeta. split; [exact IH1|]. split; [exact IH2|]. rewrite IH3.
      rewrite hdeltas_app, delta_spec by exact He. subst total. cbn [foldr]. ring.
Qed.

Lemma counter_standalone (d : date) (reb : bool) (initialRanks : gmap string (option Z))
    (es : list event) (r : run) (a : Z) :
  Forall (fun e => isScoreEvent e = true) es ->
  hget (redis r) k f = Some (HInt a) ->
  hget (redis (processStandalone d reb initialRanks es r)) k f
  = Some (HInt (a + total es)).
Proof.
  intros Hall Hget. unfold processStandalone. destruct es as [|e es].
  - subst total. cbn [foldr]. by rewrite Z.add_0_r.
  - destruct (counter_queueStandalone d (e :: es) (redis r) (redis r) [] (out r) a
                Hall Hget eq_refl (Forall_nil_2 _)) as (H1 & H2 & H3).
    cbv zeta in H1, H2, H3.
    destruct (fold_left (queueStandalone d) (e :: es) (redis r, [], out r))
      as [[s1 pipeline] o1]. cbn [fst snd redis] in H1, H2, H3 |- *.
    assert (Hs1 : hget s1 k f = Some (HInt a))
      by (by rewrite (hget_same_hashes (redis r))).
    rewrite (hget_exec_counter s1 pipeline k f a Hs1 H2), H3. unfold hdeltas at 1. cbn [foldr]. same_counter.
Qed.

Lemma counter_eachBatch (d : date) (eng : engine) (s : store) (messages : list message)
    (a : Z) :
  Forall (fun e => isScoreEvent e = true) (acceptedOf messages) ->
  hget s k f = Some (HInt a) ->
  hget (eachBatch d eng s messages).1.2 k f
  = Some (HInt (a + total (acceptedOf messages))).
Proof.
  unfold eachBatch, acceptedOf.
  destruct (parseMessages messages) as [events parseOut]. cbn [fst snd].
  intros Hall Hget. destruct events as [|e events].
  - subst total. cbn [foldr]. rewrite Z.add_0_r.
    destruct (isRebuilding eng); [|exact Hget].
    by destruct (EMPTY_BATCH_THRESHOLD <=? consecutiveEmptyBatches eng + 1).
  - cbn [fst snd]. unfold processEvents. cbn [redis].
    pose proof (hot_and_standalone_perm (eventGroupsOf (e :: events))) as Hsplit.
    rewrite eventGroups_perm in Hsplit.
    assert (Hall' : Forall (fun e => isScoreEvent e = true)
                      (hotEventsOf (eventGroupsOf (e :: events))
                       ++ standaloneEventsOf (eventGroupsOf (e :: events))))
      by (by rewrite Hsplit).
    apply Forall_app in Hall' as [Hhot Hsa].
    rewrite (counter_standalone d (isRebuilding eng) _ _ _
               (a + total (hotEventsOf (eventGroupsOf (e :: events)))) Hsa).
    * rewrite <- (total_perm _ _ Hsplit), total_app. same_counter.
    * by apply counter_hot_groups.
Qed.

Lemma counter_eachBatches (eng : engine) (s : store)
    (batches : list (date * list message)) (a : Z) :
  Forall (fun e => isScoreEvent e = true) (acceptedOfAll batches) ->
  hget s k f = Some (HInt a) ->
  hget (eachBatches eng s batches).1.2 k f
  = Some (HInt (a + total (acceptedOfAll batches))).
Proof.
  unfold acceptedOfAll. revert eng s a.
  induction batches as [|b batches IH]; intros eng s a Hall Hget.
  - subst total. cbn. rewrite Z.add_0_r. exact Hget.
  - cbn [flat_map] in Hall |- *. apply Forall_app in Hall as [Hhere Hrest].
    rewrite eachBatches_cons. cbn [snd].
    rewrite (IH _ _ (a + total (acceptedOf b.2))); [|exact Hrest|by apply counter_eachBatch].
    rewrite total_app. same_counter.
Qed.

End ExistingPlayer.

Lemma hdeltas_games_played (p : string) (d : date) (flag : bool) (e : event) :
  isScoreEvent e = true ->
  hdeltas (playerKey (JStr p)) "games_played" (eventCmds d flag e)
  = if bool_decide (playerId e = JStr p) then 1 else 0.
Proof.
  unfold isScoreEvent. destruct e as [pid un gm sc]; cbn [playerId gameMode score].
  destruct pid as [| | | |p']; try discriminate. intros _.
  unfold eventCmds, hdeltas. cbn [foldr hdelta playerId username gameMode score redisNumber default].
  replace (hdelta (playerKey (JStr p)) "games_played"
             (if flag then HSet (playerKey (JStr p')) [("username", hvalOf un)]
              else HSet (playerKey (JStr p'))
                     [("username", hvalOf un); ("total_score", HInt 0);
                      ("games_played", HInt 0);
                      ("created_at", hvalOfString (toISOString d))]))
    with 0 by (by destruct flag).
  rewrite (bool_decide_eq_false_2 (_ /\ "total_score" = "games_played"))
    by (intros [_ ?]; discriminate).
  rewrite (bool_decide_ext (playerKey (JStr p') = playerKey (JStr p)
                            /\ "games_played" = "games_played") (JStr p' = JStr p)).
  - destruct (bool_decide (JStr p' = JStr p)); unfold id; reflexivity.
  - split.
    + intros [H _]. apply playerKey_inj in H. by rewrite H.
    + intros [= ->]. by split.
Qed.

Lemma hdeltas_total_score (p : string) (d : date) (flag : bool) (e : event) :
  isScoreEvent e = true ->
  hdeltas (playerKey (JStr p)) "total_score" (eventCmds d flag e)
  = if bool_decide (playerId e = JStr p) then default 0 (redisNumber (score e)) else 0.
Proof.
  unfold isScoreEvent. destruct e as [pid un gm sc]; cbn [playerId gameMode score].
  destruct pid as [| | | |p']; try discriminate. intros _.
  unfold eventCmds, hdeltas. cbn [foldr hdelta playerId username gameMode score].
  replace (hdelta (playerKey (JStr p)) "total_score"
             (if flag then HSet (playerKey (JStr p')) [("username", hvalOf un)]
              else HSet (playerKey (JStr p'))
                     [("username", hvalOf un); ("total_score", HInt 0);
                      ("games_played", HInt 0);
                      ("created_at", hvalOfString (toISOString d))]))
    with 0 by (by destruct flag).
  rewrite (bool_decide_eq_false_2 (_ /\ "games_played" = "total_score"))
    by (intros [_ ?]; discriminate).
  rewrite (bool_decide_ext (playerKey (JStr p') = playerKey (JStr p)
                            /\ "total_score" = "total_score") (JStr p' = JStr p)).
  - destruct (bool_decide (JStr p' = JStr p)); ring.
  - split.
    + intros [H _]. apply playerKey_inj in H. by rewrite H.
    + intros [= ->]. by split.
Qed.

Lemma gamesOf_foldr (p : string) (events : list event) :
  foldr (fun e acc => (if bool_decide (playerId e = JStr p) then 1 else 0) + acc) 0 events
  = gamesOf p events.
Proof. induction events as [|e events IH]; cbn [foldr gamesOf]; [reflexivity|by rewrite IH]. Qed.

Lemma totalOf_foldr (p : string) (events : list event) :
  foldr (fun e acc => (if bool_decide (playerId e = JStr p)
                       then default 0 (redisNumber (score e)) else 0) + acc) 0 events
  = totalOf p events.
Proof. induction events as [|e events IH]; cbn [foldr totalOf]; [reflexivity|by rewrite IH]. Qed.



(** ** Ranks *)

Lemma filter_length_le {A} (P : A -> Prop) `{!forall x, Decision (P x)} (l : list A) :
  (List.length (filter P l) <= List.length l)%nat.
Proof.
  induction l as [|x l IH]; [reflexivity|].
  rewrite filter_cons. destruct (decide (P x)); cbn [List.length]; lia.
Qed.

Lemma filter_length_mono {A} (P Q : A -> Prop)
    `{!forall x, Decision (P x)} `{!forall x, Decision (Q x)} (l : list A) :
  (forall x, x ∈ l -> P x -> Q x) ->
  (List.length (filter P l) <= List.length (filter Q l))%nat.
Proof.
  induction l as [|x l IH]; intros Himp; [reflexivity|].
  rewrite !filter_cons.
  assert (IH' : (List.length (filter P l) <= List.length (filter Q l))%nat).
  { apply IH. intros y Hy. apply Himp. by apply list_elem_of_further. }
  destruct (decide (P x)) as [HP|HP].
  - rewrite decide_True by (apply Himp; [apply list_elem_of_here|exact HP]).
    cbn [List.length]. lia.
  - destruct (decide (Q x)); cbn [List.length]; lia.
Qed.

Lemma filter_length_lt {A} (P Q : A -> Prop)
    `{!forall x, Decision (P x)} `{!forall x, Decision (Q x)} (l : list A) (a : A) :
  (forall x, x ∈ l -> P x -> Q x) ->
  a ∈ l -> ~ P a -> Q a ->
  (List.length (filter P l) < List.length (filter Q l))%nat.
Proof.
  induction l as [|x l IH]; intros Himp Ha HnP HQ; [by apply elem_of_nil in Ha|].
  rewrite !filter_cons.
  assert (Hmono : (List.length (filter P l) <= List.length (filter Q l))%nat).
  { apply filter_length_mono. intros y Hy. apply Himp. by apply list_elem_of_further. }
  apply elem_of_cons in Ha as [<-|Ha].
  - rewrite decide_False by exact HnP. rewrite decide_True by exact HQ.
    cbn [List.length]. lia.
  - assert (IH' : (List.length (filter P l) < List.length (filter Q l))%nat).
    { apply IH; try done. intros y Hy. apply Himp. by apply list_elem_of_further. }
    destruct (decide (P x)) as [HP|HP].
    + rewrite decide_True by (apply Himp; [apply list_elem_of_here|exact HP]).
      cbn [List.length]. lia.
    + destruct (decide (Q x)); cbn [List.length]; lia.
Qed.

Lemma outranks_irrefl (a : string * Z) : outranks a a = false.
Proof.
  unfold outranks. rewrite Z.ltb_irrefl, Z.eqb_refl. cbn [orb andb].
  unfold String.ltb. pose proof (String.compare_antisym a.1 a.1) as Hanti.
  by destruct (a.1 ?= a.1)%string.
Qed.

Lemma zrevrank_bounds (s : store) (key member : string) (rank : Z) :
  zrevrank s key member = Some rank ->
  0 <= rank < Z.of_nat (zcard s key).
Proof.
  unfold zrevrank, zcard, zscore.
  destruct (zsetOf s key !! member) as [sc|] eqn:Hm; [|discriminate].
  intros [= <-]. split; [lia|].
  apply Nat2Z.inj_lt. rewrite <- length_map_to_list.
  eapply Nat.lt_le_trans;
    [|apply (filter_length_le (fun _ => True) (map_to_list (zsetOf s key)))].
  apply (filter_length_lt _ _ _ (member, sc)).
  - done.
  - by apply elem_of_map_to_list.
  - rewrite outranks_irrefl. discriminate.
  - done.
Qed.

Lemma string_ltb_leb (a b : string) : String.ltb a b = true -> String.leb a b = true.
Proof. unfold String.ltb, String.leb. by destruct (a ?= b)%string. Qed.

Lemma string_ltb_trans (a b c : string) :
  String.ltb a b = true -> String.ltb b c = true -> String.ltb a c = true.
Proof.
  intros Hab Hbc.
  assert (Hle : String.le a c).
  { transitivity b; unfold String.le; apply Is_true_true; by apply string_ltb_leb. }
  apply Is_true_true in Hle. unfold String.ltb, String.leb in *.
  destruct (a ?= c)%string eqn:Hac; [|reflexivity|discriminate].
  apply String.compare_eq_iff in Hac as ->.
  rewrite String.compare_antisym in Hab. by destruct (b ?= c)%string.
Qed.

Lemma string_ltb_total (a b : string) :
  a <> b -> String.ltb a b = true \/ String.ltb b a = true.
Proof.
  intros Hne. unfold String.ltb. rewrite (String.compare_antisym a b).
  destruct (b ?= a)%string eqn:Hba; cbn [CompOpp]; [|by right|by left].
  apply String.compare_eq_iff in Hba. by destruct Hne.
Qed.

Lemma outranks_trans (x a b : string * Z) :
  outranks x a = true -> outranks a b = true -> outranks x b = true.
Proof.
  unfold outranks. rewrite !orb_true_iff, !andb_true_iff, !Z.ltb_lt, !Z.eqb_eq.
  intros [Hxa|[Hxa Hxa']] [Hab|[Hab Hab']].
  - left. lia.
  - left. lia.
  - left. lia.
  - right. split; [lia|]. by apply (string_ltb_trans _ a.1).
Qed.

Lemma outranks_total (a b : string * Z) :
  a.1 <> b.1 -> outranks a b = true \/ outranks b a = true.
Proof.
  intros Hne. unfold outranks.
  destruct (Z.lt_trichotomy a.2 b.2) as [Hlt|[Heq|Hgt]].
  - right. apply orb_true_iff. left. by apply Z.ltb_lt.
  - destruct (string_ltb_total a.1 b.1 Hne) as [H|H].
    + right. apply orb_true_iff. right. rewrite H, andb_true_r. by apply Z.eqb_eq.
    + left. apply orb_true_iff. right. rewrite H, andb_true_r. by apply Z.eqb_eq.
  - left. apply orb_true_iff. left. by apply Z.ltb_lt.
Qed.

Lemma zrevrank_lt (s : store) (key a b : string) (sa sb ra rb : Z) :
  zscore s key a = Some sa -> zscore s key b = Some sb ->
  zrevrank s key a = Some ra -> zrevrank s key b = Some rb ->
  outranks (a, sa) (b, sb) = true ->
  ra < rb.
Proof.
  unfold zrevrank. intros Ha Hb. rewrite Ha, Hb. intros [= <-] [= <-] Hout.
  apply Nat2Z.inj_lt.
  apply (filter_length_lt _ _ _ (a, sa)).
  - intros x _ Hx. by apply (outranks_trans x (a, sa) (b, sb)).
  - by apply elem_of_map_to_list.
  - rewrite outranks_irrefl. discriminate.
  - exact Hout.
Qed.

(** X12: the rank [getPlayerRank] reports lies between 1 and the number of
    members of the global leaderboard; of two players in the same
    leaderboard the one with the strictly higher score has the strictly
    smaller rank; and two different members never share a rank. *)
Theorem ranks_are_bounded_ordered_and_distinct
    (s : store) (g p q : jsval) (rp sp rq sq : Z) :
  getPlayerRank s g p = Some (rp, sp) ->
  getPlayerRank s g q = Some (rq, sq) ->
  1 <= rp <= Z.of_nat (zcard s (globalKey g))
  /\ (sq < sp -> rp < rq)
  /\ (redisArg p <> redisArg q -> rp <> rq).
Proof.
  unfold getPlayerRank.
  destruct (zrevrank s (globalKey g) (redisArg p)) as [r0|] eqn:Hrp; [|discriminate].
  destruct (zscore s (globalKey g) (redisArg p)) as [s0|] eqn:Hsp; [|discriminate].
  destruct (zrevrank s (globalKey g) (redisArg q)) as [r1|] eqn:Hrq; [|discriminate].
  destruct (zscore s (globalKey g) (redisArg q)) as [s1|] eqn:Hsq; [|discriminate].
  intros [= <- <-] [= <- <-].
  pose proof (zrevrank_bounds _ _ _ _ Hrp) as Hbound.
  split; [lia|]. split.
  - intros Hlt.
    assert (r0 < r1); [|lia].
    apply (zrevrank_lt s (globalKey g) _ _ s0 s1 r0 r1 Hsp Hsq Hrp Hrq).
    unfold outranks. cbn [fst snd]. apply orb_true_iff. left. by apply Z.ltb_lt.
  - intros Hne Heq.
    destruct (outranks_total (redisArg p, s0) (redisArg q, s1) Hne) as [Hout|Hout].
    + pose proof (zrevrank_lt s _ _ _ s0 s1 r0 r1 Hsp Hsq Hrp Hrq Hout). lia.
    + pose proof (zrevrank_lt s _ _ _ s1 s0 r1 r0 Hsq Hsp Hrq Hrp Hout). lia.
Qed.

Lemma ranks_are_bounded_ordered_and_distinct_witness :
  let s := (eachBatches tailing emptyStore sampleBatches).1.2 in
  1 <= 1 <= Z.of_nat (zcard s (globalKey (JNum 1)))
  /\ (7 < 110 -> 1 < 2)
  /\ (redisArg (JStr "p1") <> redisArg (JStr "p2") -> 1 <> 2).
Proof.
  apply (ranks_are_bounded_ordered_and_distinct
           (eachBatches tailing emptyStore sampleBatches).1.2
           (JNum 1) (JStr "p1") (JStr "p2") 1 110 2 7).
  - vm_compute. reflexivity.
  - vm_compute. reflexivity.
Defined.

(** ** Daily and weekly keys expire *)

Lemma zsets_zincrby_key (s : store) (key : string) (incr : jsval) (member : string) (k : string) :
  is_Some (zsets (execCmd s (ZIncrBy key incr member)) !! k)
  <-> is_Some (zsets s !! k) \/ (key = k /\ is_Some (redisNumber incr)).
Proof.
  cbn [execCmd]. destruct (redisNumber incr) as [n|]; cbn [zsets].
  - destruct (decide (key = k)) as [->|Hne].
    + rewrite lookup_insert_eq. split; [intros _; right; eauto|eauto].
    + rewrite lookup_insert_ne by exact Hne. split; [by left|].
      intros [H|[H _]]; [exact H|by destruct Hne].
  - split; [by left|]. intros [H|[_ [x Hx]]]; [exact H|discriminate].
Qed.

Section KeyTtl.

Variable k : string.
Variable T : Z.
Hypothesis not_global : forall g, globalKey (JNum g) <> k.
Hypothesis daily_ttl : forall g today, dailyKey (JNum g) today = k -> 7 * 24 * 60 * 60 = T.
Hypothesis weekly_ttl : forall g week, weeklyKey (JNum g) week = k -> 28 * 24 * 60 * 60 = T.

Lemma expires_hash_cmd (s : store) (c : cmd) :
  match c with HSet _ _ | HIncrBy _ _ _ => True | _ => False end ->
  expiresAfter k T s -> expiresAfter k T (execCmd s c).
Proof.
  unfold expiresAfter. intros Hc H Hex. rewrite ttl_execCmd.
  rewrite zsets_execCmd_other in Hex by (intros incr member ->; exact Hc).
  destruct c as [key fields|key field incr|key incr member|key seconds]; try done;
    by apply H.
Qed.

Lemma expires_zincrby_other (s : store) (key : string) (incr : jsval) (member : string) :
  key <> k ->
  expiresAfter k T s -> expiresAfter k T (execCmd s (ZIncrBy key incr member)).
Proof.
  unfold expiresAfter. intros Hne H Hex.
  rewrite ttl_execCmd. apply H.
  apply zsets_zincrby_key in Hex as [Hex|[Hk _]]; [exact Hex|by destruct Hne].
Qed.

Lemma expires_pair (s : store) (key : string) (incr : jsval) (member : string) (sec : Z) :
  (key = k -> sec = T) ->
  expiresAfter k T s ->
  expiresAfter k T (execCmd (execCmd s (ZIncrBy key incr member)) (Expire key sec)).
Proof.
  unfold expiresAfter. intros Hsec H Hex.
  rewrite ttl_execCmd.
  assert (Hz : zsets (execCmd (execCmd s (ZIncrBy key incr member)) (Expire key sec))
               = zsets (execCmd s (ZIncrBy key incr member))).
  { cbn [execCmd]. by destruct (exists_ _ key). }
  rewrite Hz in Hex.
  destruct (decide (key = k)) as [->|Hne].
  - rewrite bool_decide_eq_true_2 by reflexivity. rewrite andb_true_r.
    assert (Hexists : exists_ (execCmd s (ZIncrBy k incr member)) k = true).
    { unfold exists_. rewrite (bool_decide_eq_true_2 (is_Some (zsets _ !! k))) by exact Hex.
      apply orb_true_r. }
    rewrite Hexists. by rewrite Hsec.
  - rewrite bool_decide_eq_false_2 by exact Hne. rewrite andb_false_r.
    rewrite ttl_execCmd. apply H.
    apply zsets_zincrby_key in Hex as [Hex|[Hk _]]; [exact Hex|by destruct Hne].
Qed.

Lemma expires_weekly (d : date) (e : event) (s : store) :
  isScoreEvent e = true ->
  expiresAfter k T s ->
  expiresAfter k T (updateWeeklyLeaderboard d (gameMode e) (playerId e) (score e) s).1.
Proof.
  unfold isScoreEvent, updateWeeklyLeaderboard.
  destruct (playerId e); try discriminate. destruct (gameMode e) as [| | |g|]; try discriminate.
  intros _ H. destruct (Number (score e)) as [n|]; [|exact H].
  destruct (n =? 0); [exact H|]. cbn [fst].
  apply expires_pair; [|exact H]. apply weekly_ttl.
Qed.

Lemma expires_eventCmds (d : date) (flag : bool) (e : event) (s : store) :
  isScoreEvent e = true ->
  expiresAfter k T s ->
  expiresAfter k T (exec s (eventCmds d flag e)).
Proof.
  unfold isScoreEvent.
  destruct (playerId e) eqn:Hp; try discriminate.
  destruct (gameMode e) as [| | |g|] eqn:Hg; try discriminate.
  intros _ H. unfold exec, eventCmds. cbn [fold_left]. rewrite Hg.
  do 2 (apply expires_hash_cmd; [exact I|]).
  apply expires_pair; [apply daily_ttl|].
  apply expires_zincrby_other; [apply not_global|].
  apply expires_hash_cmd; [by destruct flag|exact H].
Qed.

Lemma expires_applyEvent (d : date) (e : event) (s : store) :
  isScoreEvent e = true ->
  expiresAfter k T s -> expiresAfter k T (applyEvent d s e).
Proof.
  intros He H. unfold applyEvent. apply expires_eventCmds; [exact He|].
  by apply expires_weekly.
Qed.

Lemma expires_applyEvents (d : date) (es : list event) (s : store) :
  Forall (fun e => isScoreEvent e = true) es ->
  expiresAfter k T s -> expiresAfter k T (fold_left (applyEvent d) es s).
Proof.
  intros Hall. revert s. induction Hall as [|e es He _ IH]; intros s H; cbn [fold_left];
    [exact H|]. apply IH. by apply expires_applyEvent.
Qed.

Lemma expires_hot_groups (d : date) (reb : bool) (initialRanks : gmap string (option Z))
    (groups : list (string * list event)) (r : run) :
  Forall (fun e => isScoreEvent e = true) (hotEventsOf groups) ->
  expiresAfter k T (redis r) ->
  expiresAfter k T (redis (fold_left (processGroup d reb initialRanks) groups r)).
Proof.
  unfold hotEventsOf. revert r.
  induction groups as [|[key es] groups IH]; intros r Hall H; cbn [fold_left]; [exact H|].
  cbn [flat_map] in Hall. apply Forall_app in Hall as [Hes Hrest].
  apply IH; [exact Hrest|]. unfold processGroup. cbn [fst snd] in Hes |- *.
  destruct (1 <? List.length es)%nat; [|exact H].
  rewrite redis_hot_group. by apply expires_applyEvents.
Qed.

Lemma expires_queueStandalone (d : date) (es : list event)
    (s : store) (pipeline : list cmd) (o : list effect) :
  Forall (fun e => isScoreEvent e = true) es ->
  expiresAfter k T s ->
  (forall s0, expiresAfter k T s0 -> expiresAfter k T (exec s0 pipeline)) ->
  let acc := fold_left (queueStandalone d) es (s, pipeline, o) in
  expiresAfter k T acc.1.1
  /\ forall s0, expiresAfter k T s0 -> expiresAfter k T (exec s0 acc.1.2).
Proof.
  intros Hall. revert s pipeline o.
  induction Hall as [|e es He _ IH]; intros s pipeline o H Hpl; cbn [fold_left].
  - by split.
  - rewrite queueStandalone_step. apply IH.
    + by apply expires_weekly.
    + intros s0 H0. unfold exec. rewrite fold_left_app.
      apply expires_eventCmds; [exact He|]. by apply Hpl.
Qed.

Lemma expires_standalone (d : date) (reb : bool) (initialRanks : gmap string (option Z))
    (es : list event) (r : run) :
  Forall (fun e => isScoreEvent e = true) es ->
  expiresAfter k T (redis r) ->
  expiresAfter k T (redis (processStandalone d reb initialRanks es r)).
Proof.
  intros Hall H. unfold processStandalone. destruct es as [|e es]; [exact H|].
  destruct (expires_queueStandalone d (e :: es) (redis r) [] (out r) Hall H) as [H1 H2].
  { intros s0 H0. exact H0. }
  cbv zeta in H1, H2.
  destruct (fold_left (queueStandalone d) (e :: es) (redis r, [], out r))
    as [[s1 pipeline] o1]. cbn [fst snd redis] in H1, H2 |- *.
  by apply H2.
Qed.

Lemma expires_eachBatch (d : date) (eng : engine) (s : store) (messages : list message) :
  Forall (fun e => isScoreEvent e = true) (acceptedOf messages) ->
  expiresAfter k T s -> expiresAfter k T (eachBatch d eng s messages).1.2.
Proof.
  unfold eachBatch, acceptedOf.
  destruct (parseMessages messages) as [events parseOut]. cbn [fst snd].
  intros Hall H. destruct events as [|e events].
  - destruct (isRebuilding eng); [|exact H].
    by destruct (EMPTY_BATCH_THRESHOLD <=? consecutiveEmptyBatches eng + 1).
  - cbn [fst snd]. unfold processEvents. cbn [redis].
    pose proof (hot_and_standalone_perm (eventGroupsOf (e :: events))) as Hsplit.
    rewrite eventGroups_perm in Hsplit.
    assert (Hall' : Forall (fun e => isScoreEvent e = true)
                      (hotEventsOf (eventGroupsOf (e :: events))
                       ++ standaloneEventsOf (eventGroupsOf (e :: events))))
      by (by rewrite Hsplit).
    apply Forall_app in Hall' as [Hhot Hsa].
    apply expires_standalone; [exact Hsa|]. by apply expires_hot_groups.
Qed.

Lemma expires_eachBatches (eng : engine) (s : store) (batches : list (date * list message)) :
  Forall (fun e => isScoreEvent e = true) (acceptedOfAll batches) ->
  expiresAfter k T s -> expiresAfter k T (eachBatches eng s batches).1.2.
Proof.
  unfold acceptedOfAll. revert eng s.
  induction batches as [|b batches IH]; intros eng s Hall H; [exact H|].
  cbn [flat_map] in Hall. apply Forall_app in Hall as [Hhere Hrest].
  rewrite eachBatches_cons. cbn [snd]. apply IH; [exact Hrest|].
  by apply expires_eachBatch.
Qed.

End KeyTtl.

(** X13: the handler keeps the expiry of the time-boxed leaderboards: if
    every daily sorted set of the store expires after 7 days and every
    weekly one after 28 days (as in an empty store), the same holds after any
    sequence of batches whose accepted events are score events; a key the
    handler creates is given its expiry in the same event. *)
Theorem daily_and_weekly_keys_keep_their_expiry
    (eng : engine) (s : store) (batches : list (date * list message))
    (g : Z) (today week : string) :
  Forall (fun e => isScoreEvent e = true) (acceptedOfAll batches) ->
  (expiresAfter (dailyKey (JNum g) today) (7 * 24 * 60 * 60) s ->
   expiresAfter (dailyKey (JNum g) today) (7 * 24 * 60 * 60)
                (eachBatches eng s batches).1.2)
  /\ (expiresAfter (weeklyKey (JNum g) week) (28 * 24 * 60 * 60) s ->
      expiresAfter (weeklyKey (JNum g) week) (28 * 24 * 60 * 60)
                   (eachBatches eng s batches).1.2).
Proof.
  intros Hall. split; intros H.
  - apply expires_eachBatches; try done.
    + intros g' Heq. symmetry in Heq. exact (dailyKey_ne_globalKey _ _ _ Heq).
    + intros g' w Heq. destruct (weeklyKey_ne_dailyKey _ _ _ _ Heq).
  - apply expires_eachBatches; try done.
    + intros g' Heq. symmetry in Heq. exact (weeklyKey_ne_globalKey _ _ _ Heq).
    + intros g' t Heq. symmetry in Heq. destruct (weeklyKey_ne_dailyKey _ _ _ _ Heq).
Qed.

Lemma daily_and_weekly_keys_keep_their_expiry_witness :
  ttl (eachBatches tailing emptyStore sampleBatches).1.2 !! dailyKey (JNum 1) "2023-01-07"
  = Some (7 * 24 * 60 * 60)
  /\ ttl (eachBatches tailing emptyStore sampleBatches).1.2 !! weeklyKey (JNum 1) "2023-W02"
     = Some (28 * 24 * 60 * 60).
Proof.
  destruct (daily_and_weekly_keys_keep_their_expiry tailing emptyStore sampleBatches
              1 "2023-01-07" "2023-W02") as [Hd Hw].
  - repeat constructor.
  - split.
    + apply Hd.
      * intros [x Hx]. vm_compute in Hx. discriminate.
      * vm_compute. eauto.
    + apply Hw.
      * intros [x Hx]. vm_compute in Hx. discriminate.
      * vm_compute. eauto.
Defined.

(** ** Cache purges follow the top-100 policy *)

Lemma purgePolicy_app (a b : list effect) :
  purgePolicy a -> purgePolicy b -> purgePolicy (a ++ b).
Proof.
  intros Ha Hb. induction Ha as [|l o _ IH|n o Hn Ht _ IH|n o Hn Ht _ IH]; cbn [app].
  - exact Hb.
  - by apply policy_log.
  - by apply policy_quiet.
  - by apply policy_purge.
Qed.

Lemma purgePolicy_logs (o : list effect) :
  Forall (fun x => exists l, x = Log l) o -> purgePolicy o.
Proof.
  induction 1 as [|x o [l ->] _ IH]; [apply policy_nil|by apply policy_log].
Qed.

Lemma purgePolicy_weekly (d : date) (g p sc : jsval) (s : store) :
  purgePolicy (updateWeeklyLeaderboard d g p sc s).2.
Proof.
  unfold updateWeeklyLeaderboard. destruct (Number sc) as [n|].
  - destruct (n =? 0); cbn [snd]; [apply policy_log|]; apply policy_nil.
  - apply policy_log, policy_nil.
Qed.

Lemma purgePolicy_notify (e : event) (previousRank : option Z) (newRankData : option (Z * Z)) :
  purgePolicy (notify e previousRank newRankData).
Proof.
  unfold notify. destruct newRankData as [[rank sc]|]; [|apply policy_nil].
  case_bool_decide as Hne; [|apply policy_nil].
  destruct (match previousRank with Some p => p <=? 100 | None => false end
            || (rank <=? 100)) eqn:Htop.
  - apply (policy_purge (RankChange (gameMode e) (playerId e) rank previousRank sc));
      [exact Hne|exact Htop|apply policy_nil].
  - apply (policy_quiet (RankChange (gameMode e) (playerId e) rank previousRank sc));
      [exact Hne|exact Htop|apply policy_nil].
Qed.

Lemma purgePolicy_hot_group (d : date) (reb : bool) (initialRanks : gmap string (option Z))
    (key : string) (es : list event) (r : run) :
  purgePolicy (out r) ->
  purgePolicy (out (fold_left (processHotEvent d reb initialRanks key) es r)).
Proof.
  revert r. induction es as [|e es IH]; intros r H; cbn [fold_left]; [exact H|].
  apply IH. unfold processHotEvent. cbn [out].
  apply purgePolicy_app; [exact H|]. apply purgePolicy_app; [apply purgePolicy_weekly|].
  destruct reb; [apply policy_nil|apply purgePolicy_notify].
Qed.

Lemma purgePolicy_hot_groups (d : date) (reb : bool) (initialRanks : gmap string (option Z))
    (groups : list (string * list event)) (r : run) :
  purgePolicy (out r) ->
  purgePolicy (out (fold_left (processGroup d reb initialRanks) groups r)).
Proof.
  revert r. induction groups as [|[key es] groups IH]; intros r H; cbn [fold_left]; [exact H|].
  apply IH. unfold processGroup. cbn [fst snd].
  destruct (1 <? List.length es)%nat; [by apply purgePolicy_hot_group|exact H].
Qed.

Lemma purgePolicy_queueStandalone (d : date) (es : list event)
    (s : store) (pipeline : list cmd) (o : list effect) :
  purgePolicy o ->
  purgePolicy (fold_left (queueStandalone d) es (s, pipeline, o)).2.
Proof.
  revert s pipeline o. induction es as [|e es IH]; intros s pipeline o H; cbn [fold_left];
    [exact H|].
  rewrite queueStandalone_step. apply IH.
  apply purgePolicy_app; [exact H|apply purgePolicy_weekly].
Qed.

Lemma purgePolicy_flat_map {A} (f : A -> list effect) (l : list A) :
  (forall x, purgePolicy (f x)) -> purgePolicy (flat_map f l).
Proof.
  intros Hf. induction l as [|x l IH]; cbn [flat_map]; [apply policy_nil|].
  by apply purgePolicy_app.
Qed.

Lemma purgePolicy_standalone (d : date) (reb : bool) (initialRanks : gmap string (option Z))
    (es : list event) (r : run) :
  purgePolicy (out r) ->
  purgePolicy (out (processStandalone d reb initialRanks es r)).
Proof.
  intros H. unfold processStandalone. destruct es as [|e es]; [exact H|].
  pose proof (purgePolicy_queueStandalone d (e :: es) (redis r) [] (out r) H) as Hq.
  destruct (fold_left (queueStandalone d) (e :: es) (redis r, [], out r))
    as [[s1 pipeline] o1]. cbn [snd out] in Hq |- *.
  apply purgePolicy_app; [exact Hq|].
  destruct reb; [apply policy_nil|].
  apply purgePolicy_flat_map. intros x. apply purgePolicy_notify.
Qed.

(** X14: whatever the batch, the store and the mode, what the handler emits
    follows the purge policy: every published message carries a new rank
    that differs from its old rank; a change whose old or new rank is within
    the first hundred is followed at once by the purge of the three top-100
    paths of its game mode; and no purge occurs anywhere else. *)
Theorem handler_follows_the_purge_policy
    (d : date) (eng : engine) (s : store) (messages : list message) :
  purgePolicy (eachBatch d eng s messages).2.
Proof.
  unfold eachBatch.
  pose proof (proj2 (parseMessages_logs messages)) as Hparse.
  apply purgePolicy_logs in Hparse.
  destruct (parseMessages messages) as [events parseOut]. cbn [snd] in Hparse.
  destruct events as [|e events].
  - destruct (isRebuilding eng); [|exact Hparse].
    destruct (EMPTY_BATCH_THRESHOLD <=? consecutiveEmptyBatches eng + 1); cbn [snd];
      [|exact Hparse].
    apply purgePolicy_app; [exact Hparse|apply policy_log, policy_nil].
  - cbn [snd]. apply purgePolicy_app; [exact Hparse|].
    unfold processEvents. cbn [out].
    apply purgePolicy_app; [|apply policy_log, policy_nil].
    apply purgePolicy_standalone, purgePolicy_hot_groups. apply policy_nil.
Qed.

(** ** Edges of [needsRebuild] *)

(** X15: with no game mode seeded the scan stops at the first reply that
    holds a player key and answers [false], whatever the later replies are,
    errors included; with game modes seeded and all their leaderboards
    empty the scan reads every reply, and one failing reply makes the
    answer [true] even when a player key was seen before it. *)
Theorem scan_errors_count_only_when_reached
    (c : redisClient) (pre post : list (result (list string))) (keys : list string) :
  scanFirst c :: scanMore c = pre ++ Ok keys :: post ->
  Forall (fun r => exists ks, r = Ok ks /\ playerKeysOf ks = []) pre ->
  playerKeysOf keys <> [] ->
  (getAllGameModes c = Ok [] -> needsRebuild c = false)
  /\ (forall id rest,
        getAllGameModes c = Ok (id :: rest) ->
        allLeaderboardsEmpty c (id :: rest) = Ok true ->
        Throws ∈ post ->
        needsRebuild c = true).
Proof.
  intros Hscan Hpre Hkeys. split.
  - intros Hmodes. unfold needsRebuild, needsRebuildTry. rewrite Hmodes, Hscan.
    assert (Hgen : scanUntilPlayer (pre ++ Ok keys :: post) 0 = Ok false); [|by rewrite Hgen].
    clear Hscan. induction Hpre as [|r pre (ks & -> & Hks) _ IH]; cbn [app scanUntilPlayer].
    + destruct (playerKeysOf keys) as [|x l]; [by destruct Hkeys|]. reflexivity.
    + rewrite Hks. cbn [List.length Nat.add Nat.ltb Nat.leb]. exact IH.
  - intros id rest Hmodes Hempty Hthrows. unfold needsRebuild, needsRebuildTry.
    rewrite Hmodes, Hempty, Hscan.
    assert (Hgen : forall n, scanAll (pre ++ Ok keys :: post) n = Throws);
      [|by rewrite Hgen].
    clear Hscan. induction Hpre as [|r pre (ks & -> & Hks) _ IH]; intros n; cbn [app scanAll].
    + generalize (n + List.length (playerKeysOf keys))%nat. clear n.
      induction post as [|r post IHpost]; intros n; [by apply elem_of_nil in Hthrows|].
      apply elem_of_cons in Hthrows as [<-|Hin]; [reflexivity|].
      destruct r as [ks|]; cbn [scanAll]; [by apply IHpost|reflexivity].
    + apply IH.
Qed.

Lemma scan_errors_count_only_when_reached_witness :
  needsRebuild unseededClient = false
  /\ needsRebuild (RedisClient (Ok [1]) (fun _ => Ok 0%nat)
                               (Ok ["player:p1:last_submission"]) [Ok ["player:p1"]; Throws])
     = true.
Proof.
  split.
  - apply (scan_errors_count_only_when_reached unseededClient
             [Ok ["player:p1:last_submission"]] [Throws] ["player:p1"]).
    + reflexivity.
    + repeat constructor. eexists. split; reflexivity.
    + discriminate.
    + reflexivity.
  - apply (scan_errors_count_only_when_reached
             (RedisClient (Ok [1]) (fun _ => Ok 0%nat)
                          (Ok ["player:p1:last_submission"]) [Ok ["player:p1"]; Throws])
             [Ok ["player:p1:last_submission"]] [Throws] ["player:p1"]) with (id := 1) (rest := []).
    + reflexivity.
    + repeat constructor. eexists. split; reflexivity.
    + discriminate.
    + reflexivity.
    + reflexivity.
    + apply list_elem_of_here.
Defined.

(** ** Groups *)

Lemma groupPush_nonempty (key : string) (e : event) (groups : list (string * list event)) :
  Forall (fun g => g.2 <> []) groups ->
  Forall (fun g => g.2 <> []) (groupPush key e groups).
Proof.
  induction 1 as [|[k0 es0] groups H0 Hrest IH]; cbn [groupPush].
  - constructor; [discriminate|constructor].
  - destruct (decide (k0 = key)).
    + constructor; [|exact Hrest]. cbn [snd]. by destruct es0.
    + constructor; [exact H0|exact IH].
Qed.

Lemma eventGroups_nonempty (events : list event) :
  Forall (fun g => g.2 <> []) (eventGroupsOf events).
Proof.
  unfold eventGroupsOf.
  assert (Hgen : forall groups, Forall (fun g : string * list event => g.2 <> []) groups ->
            Forall (fun g => g.2 <> [])
                   (fold_left (fun groups e => groupPush (keyOf e) e groups) events groups)).
  { induction events as [|e events IH]; intros groups Hgroups; cbn [fold_left];
      [exact Hgroups|]. apply IH. by apply groupPush_nonempty. }
  apply Hgen. constructor.
Qed.

(** X16: the groups of a batch have distinct keys; each group holds exactly
    the events of the batch with its key, in arrival order; and the events of
    the hot groups together with the standalone events are the accepted
    events, each once. *)
Theorem groups_partition_the_batch (events : list event) :
  NoDup ((eventGroupsOf events).*1)
  /\ (forall key es, (key, es) ∈ eventGroupsOf events ->
                     es <> [] /\ es = filter (fun e => keyOf e = key) events)
  /\ hotEventsOf (eventGroupsOf events) ++ standaloneEventsOf (eventGroupsOf events)
     ≡ₚ events.
Proof.
  destruct (eventGroups_from events [] []) as [Hnd Hg].
  { apply NoDup_nil_2. }
  { intros k. reflexivity. }
  fold (eventGroupsOf events) in Hnd, Hg. cbn [app] in Hg.
  split; [exact Hnd|]. split.
  - intros key es Hin.
    apply list_elem_of_split in Hin as (gs1 & gs2 & Heq).
    destruct (eventGroups_group events key es gs1 gs2 Heq) as [_ Hes].
    split; [|exact Hes].
    pose proof (eventGroups_nonempty events) as Hne.
    rewrite Heq in Hne. apply Forall_app in Hne as [_ Hne].
    apply Forall_cons in Hne as [Hne _]. exact Hne.
  - rewrite hot_and_standalone_perm. apply eventGroups_perm.
Qed.

(* ===================================================================== *)
(** ** What the store does not depend on *)

Lemma redis_hot_groups_mode (d : date) (reb reb' : bool)
    (initialRanks initialRanks' : gmap string (option Z))
    (groups : list (string * list event)) (r r' : run) :
  redis r = redis r' ->
  redis (fold_left (processGroup d reb initialRanks) groups r)
  = redis (fold_left (processGroup d reb' initialRanks') groups r').
Proof.
  revert r r'. induction groups as [|[key es] groups IH]; intros r r' H;
    cbn [fold_left]; [exact H|].
  apply IH. unfold processGroup. cbn [fst snd].
  destruct (1 <? List.length es)%nat; [|exact H].
  rewrite !redis_hot_group. by rewrite H.
Qed.

Lemma queueStandalone_mode (d : date) (es : list event)
    (s : store) (pipeline : list cmd) (o o' : list effect) :
  (fold_left (queueStandalone d) es (s, pipeline, o)).1
  = (fold_left (queueStandalone d) es (s, pipeline, o')).1.
Proof.
  revert s pipeline o o'. induction es as [|e es IH]; intros s pipeline o o';
    cbn [fold_left]; [reflexivity|].
  rewrite !queueStandalone_step. apply IH.
Qed.

Lemma redis_standalone_mode (d : date) (reb reb' : bool)
    (initialRanks initialRanks' : gmap string (option Z)) (es : list event) (r r' : run) :
  redis r = redis r' ->
  redis (processStandalone d reb initialRanks es r)
  = redis (processStandalone d reb' initialRanks' es r').
Proof.
  intros H. unfold processStandalone. destruct es as [|e es]; [exact H|].
  pose proof (queueStandalone_mode d (e :: es) (redis r) [] (out r) (out r')) as Hq.
  rewrite <- H.
  destruct (fold_left (queueStandalone d) (e :: es) (redis r, [], out r)) as [[s1 p1] o1].
  destruct (fold_left (queueStandalone d) (e :: es) (redis r, [], out r')) as [[s2 p2] o2].
  cbn [fst] in Hq. injection Hq as -> ->. reflexivity.
Qed.

Lemma redis_processEvents_mode (d : date) (reb reb' : bool) (s : store) (events : list event) :
  redis (processEvents d reb s events) = redis (processEvents d reb' s events).
Proof.
  unfold processEvents. cbn [redis].
  apply redis_standalone_mode, redis_hot_groups_mode. reflexivity.
Qed.

Lemma redis_eachBatch_mode (d : date) (eng eng' : engine) (s : store)
    (messages : list message) :
  (eachBatch d eng s messages).1.2 = (eachBatch d eng' s messages).1.2.
Proof.
  unfold eachBatch. destruct (parseMessages messages) as [events parseOut].
  destruct events as [|e events].
  - destruct (isRebuilding eng), (isRebuilding eng');
      repeat match goal with |- context [if ?b then _ else _] => destruct b end;
      reflexivity.
  - cbn [fst snd]. apply redis_processEvents_mode.
Qed.

(** X17: the store a sequence of batches leaves does not depend on the
    state of the engine: replaying the batches and handling them in tailing
    mode write exactly the same hashes, sorted sets and expiry times; the
    mode only decides what is published and purged. *)
Theorem replay_and_tailing_leave_the_same_store
    (eng eng' : engine) (s : store) (batches : list (date * list message)) :
  (eachBatches eng s batches).1.2 = (eachBatches eng' s batches).1.2.
Proof.
  revert eng eng' s. induction batches as [|b batches IH]; intros eng eng' s;
    [reflexivity|].
  rewrite !eachBatches_cons. cbn [snd].
  rewrite (redis_eachBatch_mode b.1 eng eng' s b.2). apply IH.
Qed.

Lemma eventDelta_sameDay (d d' : date) (k m : string) (e : event) :
  sameDay d d' -> eventDelta d k m e = eventDelta d' k m e.
Proof.
  intros [Hday Hweek]. unfold eventDelta, weeklyDelta, eventCmds. cbv zeta.
  rewrite Hday, Hweek. reflexivity.
Qed.

Lemma deltaSum_sameDay (d d' : date) (k m : string) (events : list event) :
  sameDay d d' -> deltaSum d k m events = deltaSum d' k m events.
Proof.
  intros H. unfold deltaSum. induction events as [|e events IH]; cbn [foldr];
    [reflexivity|].
  by rewrite IH, (eventDelta_sameDay d d' k m e H).
Qed.

Lemma deltaSumAll_sameDay (d : date) (k m : string) (batches : list (date * list message)) :
  Forall (fun b => sameDay d b.1) batches ->
  deltaSumAll k m batches = deltaSum d k m (acceptedOfAll batches).
Proof.
  unfold deltaSumAll, acceptedOfAll.
  induction 1 as [|b batches Hb _ IH]; cbn [foldr flat_map]; [reflexivity|].
  rewrite <- (deltaSum_sameDay d b.1 k m (acceptedOf b.2) Hb), IH, deltaSum_app.
  reflexivity.
Qed.



(* ===================================================================== *)
(** ** Registering a player *)

Lemma hset_same (s : store) (k f : string) (v : hval) (h : gmap string hval) :
  hashes s !! k = Some h -> h !! f = Some v -> execCmd s (HSet k [(f, v)]) = s.
Proof.
  intros Hk Hf. destruct s as [hs zs ts]. cbn [execCmd hashes zsets ttl] in *.
  unfold hgetall, hsetFields. cbn [hashes fold_left fst snd].
  rewrite Hk. cbn [default]. rewrite (insert_id h f v Hf), (insert_id hs k h Hk).
  reflexivity.
Qed.

Lemma createOrUpdatePlayer_hash (d : date) (p un : jsval) (s : store) :
  exists h, hashes (createOrUpdatePlayer d p un s) !! playerKey p = Some h
            /\ h !! "username" = Some (hvalOf un).
Proof.
  unfold createOrUpdatePlayer, exec. cbv zeta. cbn [fold_left].
  destruct (exists_ s (playerKey p)); cbn [negb execCmd hashes];
    eexists; (split; [apply lookup_insert_eq|]);
    unfold hsetFields; cbn [fold_left fst snd].
  - apply lookup_insert_eq.
  - rewrite !lookup_insert_ne by discriminate. apply lookup_insert_eq.
Qed.

Lemma exists_hash (s : store) (k : string) (h : gmap string hval) :
  hashes s !! k = Some h -> exists_ s k = true.
Proof.
  intros H. unfold exists_. rewrite bool_decide_eq_true_2 by (rewrite H; eauto).
  reflexivity.
Qed.

(** X19: registering a player twice with the same name is registering the
    player once: the second call, whenever it is made, leaves the store as
    the first one left it, so the counters and the creation time of the
    first registration stand. *)
Theorem registering_twice_is_registering_once
    (d d' : date) (playerId username : jsval) (s : store) :
  createOrUpdatePlayer d' playerId username (createOrUpdatePlayer d playerId username s)
  = createOrUpdatePlayer d playerId username s.
Proof.
  destruct (createOrUpdatePlayer_hash d playerId username s) as (h & Hk & Hf).
  unfold createOrUpdatePlayer at 1. cbv zeta.
  rewrite (exists_hash _ _ _ Hk). unfold exec. cbn [negb fold_left].
  by apply (hset_same _ _ _ _ h).
Qed.

Lemma createOrUpdatePlayer_new_counter (d : date) (p un : jsval) (s : store) (f : string) :
  exists_ s (playerKey p) = false ->
  f = "games_played" \/ f = "total_score" ->
  hget (createOrUpdatePlayer d p un s) (playerKey p) f = Some (HInt 0).
Proof.
  intros Hex Hf. unfold createOrUpdatePlayer, exec. cbv zeta. cbn [fold_left].
  rewrite Hex. cbn [negb]. rewrite hget_execCmd, decide_True by reflexivity.
  unfold hsetFields. cbn [fold_left fst snd].
  destruct Hf as [-> | ->].
  - rewrite lookup_insert_ne by discriminate. apply lookup_insert_eq.
  - rewrite !lookup_insert_ne by discriminate. apply lookup_insert_eq.
Qed.



(* ===================================================================== *)
(** ** The submission rate limit *)

Lemma ceilDiv_1000_bounds (a : Z) : 1000 * (ceilDiv a 1000 - 1) < a <= 1000 * ceilDiv a 1000.
Proof.
  unfold ceilDiv.
  pose proof (Z.div_mod (- a) 1000 ltac:(lia)) as Hdm.
  pose proof (Z.mod_pos_bound (- a) 1000 ltac:(lia)) as Hb.
  lia.
Qed.

(** X21: with a last submission on record that is not in the future and a
    positive interval of [I] seconds, a submission is refused exactly while
    less than [I] seconds have passed; a refusal writes nothing, so it does
    not restart the wait, and the wait it announces is the time left rounded
    up to the second, between 1 and [I]; any other submission is allowed and
    records its instant for [I] seconds. *)
Theorem rate_limit_refuses_within_the_interval
    (now written I last : Z) :
  0 < I -> last <= now ->
  (now - last < 1000 * I ->
   exists r, checkRateLimit now written I (Some last) = (RateLimit false (Some r), None)
             /\ 1 <= r <= I
             /\ 1000 * (r - 1) < last + 1000 * I - now <= 1000 * r)
  /\ (1000 * I <= now - last ->
      checkRateLimit now written I (Some last) = (RateLimit true None, Some (I, written)))
  /\ checkRateLimit now written I None = (RateLimit true None, Some (I, written)).
Proof.
  intros HI Hlast. unfold checkRateLimit. cbv zeta. split; [|split].
  - intros Hlt. rewrite (proj2 (Z.ltb_lt _ _) Hlt).
    eexists. split; [reflexivity|].
    pose proof (ceilDiv_1000_bounds (1000 * I - (now - last))). lia.
  - intros Hge. rewrite (proj2 (Z.ltb_ge _ _) Hge). reflexivity.
  - reflexivity.
Qed.

Lemma rate_limit_refuses_within_the_interval_witness :
  checkRateLimit 1673697615500 1673697615501 60 (Some 1673697600000)
  = (RateLimit false (Some 45), None).
Proof.
  destruct (rate_limit_refuses_within_the_interval 1673697615500 1673697615501 60 1673697600000)
    as [H _]; [lia|lia|].
  destruct H as (r & Hr & _ & Hwait); [lia|].
  assert (r = 45) as -> by lia. exact Hr.
Defined.

(* ===================================================================== *)
(** ** A page of the leaderboard *)

Lemma insertDesc_perm (x : string * Z) (l : list (string * Z)) : insertDesc x l ≡ₚ x :: l.
Proof.
  induction l as [|y l IH]; cbn [insertDesc]; [reflexivity|].
  destruct (outranks x y); [reflexivity|].
  rewrite IH. apply perm_swap.
Qed.

Lemma sorted_perm (l : list (string * Z)) : foldr insertDesc [] l ≡ₚ l.
Proof.
  induction l as [|x l IH]; cbn [foldr]; [reflexivity|].
  by rewrite insertDesc_perm, IH.
Qed.

Lemma insertDesc_ranked (x : string * Z) (l : list (string * Z)) :
  rankedDesc l -> Forall (fun y => y.1 <> x.1) l -> rankedDesc (insertDesc x l).
Proof.
  induction l as [|y l IH]; intros Hs Hne; cbn [insertDesc rankedDesc]; [by split|].
  destruct Hs as [Hy Hs]. apply Forall_cons in Hne as [Hyx Hne].
  destruct (outranks x y) eqn:Hxy; cbn [rankedDesc].
  - split; [|by split]. apply Forall_cons. split; [exact Hxy|].
    eapply Forall_impl; [exact Hy|]. intros z Hz. by apply (outranks_trans x y z).
  - split; [|by apply IH].
    rewrite insertDesc_perm. apply Forall_cons. split; [|exact Hy].
    destruct (outranks_total y x Hyx) as [H|H]; [exact H|].
    rewrite Hxy in H. discriminate.
Qed.

Lemma sorted_ranked (l : list (string * Z)) :
  NoDup (l.*1) -> rankedDesc (foldr insertDesc [] l).
Proof.
  induction l as [|x l IH]; cbn [foldr fmap list_fmap]; [done|].
  intros Hnd. apply NoDup_cons in Hnd as [Hx Hnd].
  apply insertDesc_ranked; [by apply IH|].
  rewrite sorted_perm. apply Forall_forall. intros y Hy Heq.
  apply Hx. rewrite <- Heq. apply list_elem_of_fmap. by exists y.
Qed.

Lemma filter_none {A} (P : A -> Prop) `{!forall x, Decision (P x)} (l : list A) :
  Forall (fun x => ~ P x) l -> filter P l = [].
Proof.
  induction 1 as [|x l Hx _ IH]; [reflexivity|].
  rewrite filter_cons, decide_False by exact Hx. exact IH.
Qed.

Lemma ranked_position (l : list (string * Z)) (i : nat) (x : string * Z) :
  rankedDesc l -> l !! i = Some x ->
  List.length (filter (fun e => outranks e x = true) l) = i.
Proof.
  revert i. induction l as [|y l IH]; intros i Hs Hi; [discriminate|].
  destruct Hs as [Hy Hs]. rewrite filter_cons. destruct i as [|i].
  - injection Hi as ->. rewrite decide_False by (rewrite outranks_irrefl; discriminate).
    rewrite filter_none; [reflexivity|].
    eapply Forall_impl; [exact Hy|]. intros z Hyz Hzy. cbv beta in *.
    pose proof (outranks_trans x z x Hyz Hzy) as Hyy.
    rewrite outranks_irrefl in Hyy. discriminate.
  - cbn [lookup list_lookup] in Hi.
    assert (Hyx : outranks y x = true).
    { rewrite Forall_forall in Hy. apply Hy. by apply (list_elem_of_lookup_2 l i). }
    rewrite decide_True by exact Hyx. cbn [List.length]. f_equal. by apply IH.
Qed.

Lemma descending_position (z : gmap string Z) (i : nat) (x : string * Z) :
  descending z !! i = Some x ->
  List.length (filter (fun e => outranks e x = true) (map_to_list z)) = i.
Proof.
  intros Hi. rewrite <- (ranked_position (descending z) i x).
  - apply Permutation_length, filter_Permutation. symmetry. apply sorted_perm.
  - apply sorted_ranked, NoDup_fst_map_to_list.
  - exact Hi.
Qed.

Lemma descending_lookup (z : gmap string Z) (member : string) (sc : Z) :
  z !! member = Some sc <-> exists i, descending z !! i = Some (member, sc).
Proof.
  rewrite <- elem_of_map_to_list, <- list_elem_of_lookup.
  unfold descending. by rewrite sorted_perm.
Qed.

(** The member at index [i] of the descending order is the member of
    [ZREVRANK] [i]. *)
Lemma zrevrank_descending (s : store) (key member : string) (sc : Z) (i : nat) :
  descending (zsetOf s key) !! i = Some (member, sc)
  <-> zscore s key member = Some sc /\ zrevrank s key member = Some (Z.of_nat i).
Proof.
  unfold zrevrank, zscore. split.
  - intros Hi. assert (Hm : zsetOf s key !! member = Some sc).
    { apply descending_lookup. by exists i. }
    rewrite Hm. split; [reflexivity|]. by rewrite (descending_position _ i).
  - intros [Hm Hr]. rewrite Hm in Hr. injection Hr as Hr. apply Nat2Z.inj in Hr.
    apply descending_lookup in Hm as [j Hj].
    by rewrite <- Hr, (descending_position _ j _ Hj).
Qed.

Lemma zrevrange_window (s : store) (key : string) (limit offset : Z) :
  0 <= offset -> 1 <= limit ->
  zrevrange s key offset (offset + limit - 1)
  = take (Z.to_nat limit) (drop (Z.to_nat offset) (descending (zsetOf s key))).
Proof.
  intros Ho Hl. unfold zrevrange. cbv zeta.
  set (l := descending (zsetOf s key)).
  rewrite (proj2 (Z.ltb_ge offset 0)) by lia. cbv iota.
  rewrite (proj2 (Z.ltb_ge offset 0)) by lia. cbv iota.
  rewrite (proj2 (Z.ltb_ge (offset + limit - 1) 0)) by lia. cbv iota.
  rewrite (proj2 (Z.ltb_ge (offset + limit - 1) offset)) by lia. cbn [orb].
  destruct (Z.leb_spec (Z.of_nat (List.length l)) offset) as [Hlen|Hlen].
  - rewrite drop_ge by lia. by rewrite take_nil.
  - destruct (Z.leb_spec (Z.of_nat (List.length l)) (offset + limit - 1)) as [Hstop|Hstop].
    + rewrite !take_ge; [reflexivity| |]; rewrite length_drop; lia.
    + f_equal. lia.
Qed.

(** X22: a page of the global leaderboard and the rank lookup agree: for
    a non-negative offset and a limit of at least 1 the page holds at most
    [limit] entries, numbered from [offset + 1] without gaps, and a player
    is on the page with a rank and a score exactly when [getPlayerRank]
    reports that rank and that score for the player and the rank lies in
    [offset + 1 .. offset + limit]; the total count is the size of the
    leaderboard. *)
Theorem leaderboard_page_agrees_with_player_rank
    (d : date) (s : store) (gameMode : jsval) (type : string) (limit offset : Z) :
  type <> "daily" -> 0 <= offset -> 1 <= limit ->
  let page := getLeaderboard d s gameMode type limit offset in
  totalCount page = Z.of_nat (zcard s (globalKey gameMode))
  /\ Z.of_nat (List.length (leaderboard page)) <= limit
  /\ (forall i n, leaderboard page !! i = Some n -> rank n = offset + Z.of_nat i + 1)
  /\ (forall r p sc,
        Entry r p sc ∈ leaderboard page
        <-> getPlayerRank s gameMode (JStr p) = Some (r, sc)
            /\ offset < r <= offset + limit).
Proof.
  intros Htype Ho Hl. unfold getLeaderboard. cbv zeta.
  rewrite (proj2 (String.eqb_neq type "daily") Htype).
  rewrite zrevrange_window by lia. cbn [leaderboard totalCount].
  set (l := descending (zsetOf s (globalKey gameMode))).
  split; [reflexivity|]. split; [|split].
  - rewrite length_imap, length_take. lia.
  - intros i n Hi. rewrite list_lookup_imap in Hi.
    destruct (take (Z.to_nat limit) (drop (Z.to_nat offset) l) !! i) as [x|];
      [|discriminate].
    cbn in Hi. by injection Hi as <-.
  - intros r p sc. rewrite elem_of_lookup_imap. unfold getPlayerRank. cbn [redisArg toString].
    split.
    + intros (i & [m sc'] & Heq & Hi). cbn [fst snd] in Heq. injection Heq as -> -> ->.
      apply lookup_take_Some in Hi as [Hi Hlt]. rewrite lookup_drop in Hi.
      apply zrevrank_descending in Hi as [Hsc Hr]. rewrite Hr, Hsc.
      split; [|lia]. f_equal. f_equal. lia.
    + intros [Hrank Hwin].
      destruct (zrevrank s (globalKey gameMode) p) as [r0|] eqn:Hr; [|discriminate].
      destruct (zscore s (globalKey gameMode) p) as [sc0|] eqn:Hsc; [|discriminate].
      injection Hrank as <- <-.
      pose proof (zrevrank_bounds _ _ _ _ Hr) as Hb.
      assert (Hj : l !! Z.to_nat r0 = Some (p, sc0)).
      { apply zrevrank_descending. split; [exact Hsc|]. rewrite Hr. f_equal. lia. }
      exists (Z.to_nat (r0 - offset)), (p, sc0). split.
      * cbn [fst snd]. f_equal. lia.
      * apply lookup_take_Some. split; [|lia]. rewrite lookup_drop.
        replace (Z.to_nat offset + Z.to_nat (r0 - offset))%nat with (Z.to_nat r0) by lia.
        exact Hj.
Qed.

Lemma leaderboard_page_agrees_with_player_rank_witness :
  let s := (eachBatches tailing emptyStore sampleBatches).1.2 in
  Entry 2 "p2" 7 ∈ leaderboard (getLeaderboard saturdayNoon s (JNum 1) "global" 100 0)
  <-> getPlayerRank s (JNum 1) (JStr "p2") = Some (2, 7) /\ 0 < 2 <= 0 + 100.
Proof.
  intros s.
  destruct (leaderboard_page_agrees_with_player_rank saturdayNoon s (JNum 1) "global" 100 0)
    as (_ & _ & _ & H); [discriminate|lia|lia|].
  apply H.
Defined.
